(** * my-react-store: the store of [store/useStore.js]

    A shallow embedding of [createStore] (the closure over [storeState] and
    the [listeners] Set, with [getState], [setState], [subscribe] and the
    [useStore] hook), of [StoreProvider] / [useGlobalStore], and of the
    application state of [store/store.js], together with the properties of
    the store that the specification states. *)

From Stdlib Require Import List Arith Bool ZArith Lia String.
Import ListNotations.

Set Implicit Arguments.

(** A listener is a JavaScript function; the Set compares functions by
    reference, so a listener is identified by a reference number. *)
Definition lid := nat.

(** ** The ECMAScript [Set] holding the listeners

    [[SetData]] is a list of slots in insertion order.  [Set.prototype.delete]
    does not shorten the list: it replaces the slot by the marker [empty]
    ([None] here), so that an iteration in progress keeps its index.
    [Set.prototype.add] appends a slot unless the value is already there. *)
Module JSSet.

Definition t := list (option lid).

Definition empty : t := [].

Definition same (l : lid) (e : option lid) : bool :=
  match e with
  | Some x => Nat.eqb x l
  | None => false
  end.

Definition has (l : lid) (s : t) : bool := existsb (same l) s.

Definition add (l : lid) (s : t) : t :=
  if has l s then s else s ++ [Some l].

Fixpoint delete (l : lid) (s : t) : t :=
  match s with
  | [] => []
  | e :: r => if same l e then None :: r else e :: delete l r
  end.

(** The values of the set, in insertion order. *)
Fixpoint elements (s : t) : list lid :=
  match s with
  | [] => []
  | Some x :: r => x :: elements r
  | None :: r => elements r
  end.

Fixpoint distinct (ls : list lid) : bool :=
  match ls with
  | [] => true
  | x :: r => negb (existsb (Nat.eqb x) r) && distinct r
  end.

(** No value sits in two slots. *)
Definition wf (s : t) : Prop := distinct (elements s) = true.

End JSSet.

Section Store.

(** The state is an opaque application value. *)
Variable State : Type.

(** The argument of [setState]: [typeof newState === "function"] selects
    between an updater function and a replacement value. *)
Inductive updater :=
| UFun (f : State -> State)
| UVal (v : State).

(** What a listener does with the store while it runs.  The store is a
    closure, so the only things a callback can do to it are the calls
    below; [Unsubscribe l] is a call of the function that [subscribe l]
    returned. *)
Inductive prog :=
| Done
| GetState (k : State -> prog)
| SetState (newState : updater) (k : prog)
| Subscribe (l : lid) (k : prog)
| Unsubscribe (l : lid) (k : prog).

(** History of the store, kept for the statements only; no operation
    reads it.  [Commit s] is the assignment to [storeState] in [setState];
    [Call p l s] is the call [listener(storeState)] made for listener [l]
    by the [forEach] of the [p]-th [setState]; [Read s] is a [getState()]
    made by a listener, which returned [s]. *)
Inductive event :=
| Commit (s : State)
| Call (pass : nat) (l : lid) (s : State)
| Read (s : State).

Record Store := mkStore {
  storeState : State;
  listeners : JSSet.t;
  writes : nat;            (* number of [setState] calls so far *)
  trace : list event
}.

(** The code of every listener: [body l s] is what the function [l] does
    when it is called with argument [s]. *)
Variable body : lid -> State -> prog.

Definition createStore (initialState : State) : Store :=
  mkStore initialState JSSet.empty 0 [].

Definition getState (st : Store) : State := storeState st.

(** [subscribe] returns the store with the listener added and the closure
    [() => listeners.delete(listener)]. *)
Definition unsubscribe (listener : lid) (st : Store) : Store :=
  mkStore (storeState st) (JSSet.delete listener (listeners st))
          (writes st) (trace st).

Definition subscribe (listener : lid) (st : Store)
  : Store * (Store -> Store) :=
  (mkStore (storeState st) (JSSet.add listener (listeners st))
           (writes st) (trace st),
   unsubscribe listener).

(** A run either finishes or is stopped when the fuel is used up; both
    carry the store as it is at that moment. *)
Inductive outcome :=
| Fin (st : Store)
| Cut (st : Store).

Definition store_of (o : outcome) : Store :=
  match o with Fin st | Cut st => st end.

Definition andThen (o : outcome) (k : Store -> outcome) : outcome :=
  match o with
  | Fin st => k st
  | Cut st => Cut st
  end.

Definition assign (nextState : State) (st : Store) : Store :=
  mkStore nextState (listeners st) (S (writes st))
          (trace st ++ [Commit nextState]).

Definition called (pass : nat) (l : lid) (st : Store) : Store :=
  mkStore (storeState st) (listeners st) (writes st)
          (trace st ++ [Call pass l (storeState st)]).

Definition observed (st : Store) : Store :=
  mkStore (storeState st) (listeners st) (writes st)
          (trace st ++ [Read (getState st)]).

(** [setState], the [listeners.forEach] loop of its last line (index-based,
    as Set.prototype.forEach is specified: slots added during the loop are
    visited, slots emptied before their turn are skipped) and the
    execution of a listener's code. *)
Fixpoint setState (fuel : nat) (newState : updater) (st : Store)
  : outcome :=
  match fuel with
  | 0 => Cut st
  | S fuel' =>
      let nextState :=
        match newState with
        | UFun f => f (storeState st)
        | UVal v => v
        end in
      forEach fuel' (writes st) 0 (assign nextState st)
  end
with forEach (fuel : nat) (pass index : nat) (st : Store) : outcome :=
  match fuel with
  | 0 => Cut st
  | S fuel' =>
      match nth_error (listeners st) index with
      | None => Fin st
      | Some None => forEach fuel' pass (S index) st
      | Some (Some listener) =>
          andThen
            (run fuel' (body listener (storeState st))
                 (called pass listener st))
            (forEach fuel' pass (S index))
      end
  end
with run (fuel : nat) (p : prog) (st : Store) : outcome :=
  match fuel with
  | 0 => Cut st
  | S fuel' =>
      match p with
      | Done => Fin st
      | GetState k => run fuel' (k (getState st)) (observed st)
      | SetState newState k =>
          andThen (setState fuel' newState st) (run fuel' k)
      | Subscribe l k => run fuel' k (fst (subscribe l st))
      | Unsubscribe l k => run fuel' k (unsubscribe l st)
      end
  end.

(** A sequence of writes made one after the other by a client. *)
Fixpoint setStates (fuel : nat) (us : list updater) (st : Store)
  : outcome :=
  match us with
  | [] => Fin st
  | u :: r => andThen (setState fuel u st) (setStates fuel r)
  end.

(** *** Vocabulary of the statements *)

(** The state [setState(newState)] commits when the state is [s]. *)
Definition next_state (newState : updater) (s : State) : State :=
  match newState with
  | UFun f => f s
  | UVal v => v
  end.

(** The arguments listener [l] was called with, oldest first. *)
Fixpoint calls_of (l : lid) (evs : list event) : list State :=
  match evs with
  | [] => []
  | Call _ l' s :: r =>
      if Nat.eqb l' l then s :: calls_of l r else calls_of l r
  | _ :: r => calls_of l r
  end.

(** The notifications of pass [p] for the listeners [ls], all with [s]. *)
Definition notifications (p : nat) (s : State) (ls : list lid)
  : list event :=
  map (fun l => Call p l s) ls.

(** The store after a [setState] that committed [s] as pass [writes st]
    and notified the listeners [ls], which did nothing with the store. *)
Definition notified (s : State) (ls : list lid) (st : Store) : Store :=
  mkStore s (listeners st) (S (writes st))
          (trace st ++ Commit s :: notifications (writes st) s ls).

(** The state committed last, [cur] being the state before [evs]. *)
Fixpoint last_committed (cur : State) (evs : list event) : State :=
  match evs with
  | [] => cur
  | Commit s :: r => last_committed s r
  | _ :: r => last_committed cur r
  end.

(** Every listener call and every [getState()] of [evs] carries the state
    committed last before it. *)
Fixpoint coherent (cur : State) (evs : list event) : Prop :=
  match evs with
  | [] => True
  | Commit s :: r => coherent s r
  | Call _ _ s :: r => s = cur /\ coherent cur r
  | Read s :: r => s = cur /\ coherent cur r
  end.

Fixpoint no_commit (evs : list event) : Prop :=
  match evs with
  | [] => True
  | Commit _ :: _ => False
  | _ :: r => no_commit r
  end.

(** All the listeners notified by one [setState] received one value. *)
Definition one_view (evs : list event) : Prop :=
  forall p l1 s1 l2 s2,
    In (Call p l1 s1) evs -> In (Call p l2 s2) evs -> s1 = s2.

(** The listeners registered in [st] only take their argument and make no
    call on the store (as the listener of [useStore], which calls the
    selector and React's local setter). *)
Definition quiet_on (st : Store) : Prop :=
  forall l, In l (JSSet.elements (listeners st)) ->
            forall s, body l s = Done.

(** The program never calls [subscribe l]. *)
Fixpoint never_subscribes (l : lid) (p : prog) : Prop :=
  match p with
  | Done => True
  | GetState k => forall s, never_subscribes l (k s)
  | SetState _ k => never_subscribes l k
  | Subscribe l' k => l' <> l /\ never_subscribes l k
  | Unsubscribe _ k => never_subscribes l k
  end.

(** [st] continues the history of [st0] coherently. *)
Definition continues (st0 st : Store) : Prop :=
  exists evs,
    trace st = trace st0 ++ evs /\
    coherent (storeState st0) evs /\
    storeState st = last_committed (storeState st0) evs.

(** Since [st0], listener [l] is not registered and was not called. *)
Definition silent (l : lid) (st0 st : Store) : Prop :=
  JSSet.has l (listeners st) = false /\
  exists evs, trace st = trace st0 ++ evs /\ calls_of l evs = [].

(** The argument of the last call of listener [l] in [evs], if any. *)
Definition last_call (l : lid) (evs : list event) : option State :=
  last (map Some (calls_of l evs)) None.

(** From [st0] to [st] the Set has only grown at its end and lost values:
    a value found in an old slot of [st] was in that slot in [st0]. *)
Definition stable (st0 st : Store) : Prop :=
  List.length (listeners st0) <= List.length (listeners st) /\
  forall j l,
    j < List.length (listeners st0) ->
    nth_error (listeners st) j = Some (Some l) ->
    nth_error (listeners st0) j = Some (Some l).

(** The code [p] of listener [l] is one call of the unsubscribe function
    of [l] itself. *)
Definition one_shot (p : prog) (l : lid) : bool :=
  match p with
  | Unsubscribe l' Done => Nat.eqb l' l
  | _ => false
  end.

(** Called with [s], listener [l] unsubscribes itself. *)
Definition leaves (s : State) (l : lid) : bool := one_shot (body l s) l.

(** The slot [e] after its listener, if it has one, was called with [s]. *)
Definition clear (s : State) (e : option lid) : option lid :=
  match e with
  | Some l => if leaves s l then None else Some l
  | None => None
  end.

(** The listener that [forEach] reaches first. *)
Definition first_listener (st : Store) : option lid :=
  hd_error (JSSet.elements (listeners st)).

(** The stores a program can get hold of: [createStore] and whatever the
    calls on it make of it. *)
Inductive reachable : Store -> Prop :=
| reach_create s0 : reachable (createStore s0)
| reach_subscribe l st :
    reachable st -> reachable (fst (subscribe l st))
| reach_unsubscribe l st :
    reachable st -> reachable (snd (subscribe l st) st)
| reach_setState fuel u st :
    reachable st -> reachable (store_of (setState fuel u st)).

End Store.

Arguments Done {State}.
Arguments createStore [State] initialState.

(** ** The context, [StoreProvider] and [useGlobalStore] *)

Section Provider.

Variable State : Type.
Variable A : Type.

(** What [throw] carries.  [Error] is the one error the code constructs;
    [TypeError] is what JavaScript raises for a property access on [null]
    or [undefined] and for a call of something that is not a function. *)
Inductive exn :=
| Error (message : string)
| TypeError (message : string).

(** The value of [StoreContext]: the default [null] of
    [createContext(null)] or the [store] prop of a provider, which can be
    any JavaScript value: nothing ([undefined], the prop left out), another
    falsy value ([false], [0], the empty string, [NaN]), a handle made by
    [createStore], or any other truthy value.  Of such a value the code
    only uses the property [useStore]: it is absent or not a function
    ([None]), or a function of its own, which returns or throws. *)
Inductive value :=
| VNull
| VUndefined
| VFalsy
| VStore (st : Store State)
| VObject (useStore : option ((State -> A) -> option A -> exn + A)).

Definition StoreContext_default : value := VNull.

(** The providers around a component, innermost first. *)
Definition scope := list value.

Definition StoreProvider (store : value) (outer : scope) : scope :=
  store :: outer.

Definition useContext (sc : scope) : value :=
  match sc with
  | v :: _ => v
  | [] => StoreContext_default
  end.

Definition truthy (v : value) : bool :=
  match v with
  | VStore _ | VObject _ => true
  | VNull | VUndefined | VFalsy => false
  end.

(** The value [useStore] returns at a render: [cell] is the React state
    cell of the component ([None] at the first render, when
    [useState(() => selector(storeState))] runs its initialiser).  A
    caller that leaves the selector out gets [(state) => state], that is
    [useStore (fun state => state)]. *)
Definition useStore (selector : State -> A) (cell : option A)
           (st : Store State) : A :=
  match cell with
  | Some state => state
  | None => selector (storeState st)
  end.

(** The effect of [useStore], run after the render for a fresh closure
    [listener]: it subscribes the listener, calls it once itself with
    [storeState] (the value that goes to the local setter) and hands the
    unsubscribe function to React as the clean-up. *)
Definition useStore_effect (selector : State -> A) (listener : lid)
           (st : Store State)
  : Store State * A * (Store State -> Store State) :=
  let (st', unsub) := subscribe listener st in
  (st', selector (storeState st'), unsub).

(** How JavaScript sees a value of the component's state: a function
    ([Some], with what it computes from the previous state) or anything
    else ([None]). *)
Variable as_updater : A -> option (A -> A).

(** React's setter [setStateLocal(arg)]: a function is applied to the
    previous state of the cell, any other value replaces it. *)
Definition setStateLocal (prev arg : A) : A :=
  match as_updater arg with
  | Some f => f prev
  | None => arg
  end.

(** The listener that the effect creates (lines 31-34) hands
    [selector(newState)] to the local setter each time it is called:
    React's state cell of the component, which held [cell], after the
    calls of [listener] that the history [evs] holds. *)
Definition cell_after (selector : State -> A) (listener : lid)
           (cell : A) (evs : list (event State)) : A :=
  fold_left (fun prev newState => setStateLocal prev (selector newState))
            (calls_of listener evs) cell.

(** The cell once the component is mounted: the first render put
    [selector(storeState)] in it, then the effect called the listener
    with [storeState]. *)
Definition cell_mounted (selector : State -> A) (st : Store State) : A :=
  setStateLocal (selector (storeState st)) (selector (storeState st)).

(** When a render brings a new [selector] function, React runs the
    clean-up of the previous effect (the unsubscribe function it returned)
    and then the effect again, with the new closure [listener]. *)
Definition useStore_effect_again (selector : State -> A)
           (cleanup : Store State -> Store State) (listener : lid)
           (st : Store State)
  : Store State * A * (Store State -> Store State) :=
  useStore_effect selector listener (cleanup st).

Definition no_provider_message : string :=
  "useGlobalStore must be used within a StoreProvider".

Definition useGlobalStore (selector : State -> A) (cell : option A)
           (sc : scope) : exn + A :=
  let store := useContext sc in
  if negb (truthy store) then inl (Error no_provider_message)
  else
    match store with
    | VStore st => inr (useStore selector cell st)
    | VObject (Some useStore') => useStore' selector cell
    | VObject None | VFalsy =>
        inl (TypeError "store.useStore is not a function")
    | VNull | VUndefined =>
        inl (TypeError "Cannot read properties of null")
    end.

End Provider.

Arguments VNull {State A}.
Arguments VUndefined {State A}.
Arguments VFalsy {State A}.
Arguments VStore {State} A st.

(** ** The application: [store/store.js] and the components *)

Module App.

(** The state [{ count: number }], for the counts that are whole numbers
    (all that [+ 1] and [0] make from the initial 0). *)
Record AppState := { count : Z }.

(** A whole number as JavaScript holds it: up to [2^53] in magnitude it is
    itself; beyond, the nearest multiple of the spacing of the doubles
    around it, a tie going to the even multiple (valid below [2^1024]). *)
Definition to_number (z : Z) : Z :=
  let a := Z.abs z in
  if (a <=? 2 ^ 53)%Z then z
  else
    let ulp := (2 ^ (Z.log2 a - 52))%Z in
    let q := (a / ulp)%Z in
    let r := (a mod ulp)%Z in
    let q' :=
      if (2 * r <? ulp)%Z then q
      else if (ulp <? 2 * r)%Z then (q + 1)%Z
           else if Z.even q then q else (q + 1)%Z in
    (Z.sgn z * (q' * ulp))%Z.

(** JavaScript's [+] on whole numbers. *)
Definition plus (a b : Z) : Z := to_number (a + b).

Definition initialState : AppState := {| count := 0 |}.

Definition store : Store AppState := createStore initialState.

(** [Counter]: [(state) => ({ ...state, count: state.count + 1 })]. *)
Definition increment : updater AppState :=
  UFun (fun state => {| count := plus (count state) 1 |}).

(** [Grandchild]: [(state) => ({ ...state, count: 0 })]. *)
Definition reset : updater AppState :=
  UFun (fun state => {| count := 0 |}).

(** A listener that only takes note of its argument. *)
Definition recorder : lid -> AppState -> prog AppState :=
  fun _ _ => Done.

(** The two buttons and their [onClick] handlers. *)
Inductive button :=
| IncrementButton
| ResetButton.

Definition onClick (b : button) : updater AppState :=
  match b with
  | IncrementButton => increment
  | ResetButton => reset
  end.

(** The count after the clicks, counted by hand. *)
Definition counted (start : Z) (clicks : list button) : Z :=
  fold_left (fun n b => match b with
                        | IncrementButton => (n + 1)%Z
                        | ResetButton => 0%Z
                        end) clicks start.

End App.

(** ** Listeners that call back into the store *)

Module Examples.

(** Listener 0 calls the unsubscribe function of listener 1. *)
Definition canceller (l : lid) (s : nat) : prog nat :=
  match l with
  | 0 => Unsubscribe 1 Done
  | _ => Done
  end.

(** Listener 0 answers the state 1 with [setState(2)]. *)
Definition rewriter (l : lid) (s : nat) : prog nat :=
  match l with
  | 0 => if Nat.eqb s 1 then SetState (UVal 2) Done else Done
  | _ => Done
  end.

Definition quiet (l : lid) (s : nat) : prog nat := Done.

(** Listener 0 unsubscribes itself the first time it is called. *)
Definition once (l : lid) (s : nat) : prog nat :=
  match l with
  | 0 => Unsubscribe 0 Done
  | _ => Done
  end.

(** Listener 0 answers every state with a write of the next number. *)
Definition echo (l : lid) (s : nat) : prog nat :=
  match l with
  | 0 => SetState (UVal (S s)) Done
  | _ => Done
  end.

(** Listeners 0 and 1 subscribed, in this order, to a new store. *)
Definition two : Store nat :=
  fst (subscribe 1 (fst (subscribe 0 (createStore 0)))).

End Examples.

(** * Properties *)

(** ** The listener Set *)

Module JSSetFacts.
Import JSSet.

Lemma exists_eqb_In (x : lid) (ls : list lid) :
  existsb (Nat.eqb x) ls = true <-> In x ls.
Proof.
  rewrite existsb_exists. split.
  - intros [y [Hy Heq]]. apply Nat.eqb_eq in Heq. now subst.
  - intros Hin. exists x. split; [assumption | apply Nat.eqb_refl].
Qed.

Lemma distinct_NoDup (ls : list lid) : distinct ls = true <-> NoDup ls.
Proof.
  induction ls as [|x r IH]; simpl.
  - split; [constructor | reflexivity].
  - rewrite andb_true_iff, negb_true_iff, IH. split.
    + intros [Hx Hr]. constructor; [|assumption].
      rewrite <- exists_eqb_In. congruence.
    + intros Hnd. inversion Hnd as [|? ? Hx Hr]; subst. split; [|assumption].
      destruct (existsb (Nat.eqb x) r) eqn:E; [|reflexivity].
      apply exists_eqb_In in E. contradiction.
Qed.

Lemma has_elements (l : lid) (s : t) :
  has l s = true <-> In l (elements s).
Proof.
  unfold has. induction s as [|[x|] r IH]; simpl.
  - split; [discriminate | tauto].
  - rewrite orb_true_iff, IH, Nat.eqb_eq. tauto.
  - rewrite IH. tauto.
Qed.

Lemma has_false_elements (l : lid) (s : t) :
  has l s = false <-> ~ In l (elements s).
Proof.
  rewrite <- has_elements. destruct (has l s); split; intros; congruence.
Qed.

Lemma slot_elements (l : lid) (s : t) :
  In (Some l) s <-> In l (elements s).
Proof.
  induction s as [|[x|] r IH]; simpl.
  - tauto.
  - rewrite <- IH. split; intros [H|H]; auto; left; congruence.
  - rewrite <- IH. split; [intros [H|H]; [discriminate | assumption] | auto].
Qed.

Lemma elements_app (a b : t) :
  elements (a ++ b) = elements a ++ elements b.
Proof.
  induction a as [|[x|] r IH]; simpl; rewrite ?IH; reflexivity.
Qed.

Lemma add_present (l : lid) (s : t) : has l s = true -> add l s = s.
Proof. unfold add. intros ->. reflexivity. Qed.

Lemma has_add (l : lid) (s : t) : has l (add l s) = true.
Proof.
  unfold add. destruct (has l s) eqn:E; [assumption|].
  unfold has. rewrite existsb_app. simpl. rewrite Nat.eqb_refl.
  now rewrite orb_true_r.
Qed.

Lemma delete_absent (l : lid) (s : t) : has l s = false -> delete l s = s.
Proof.
  unfold has. induction s as [|e r IH]; simpl; [reflexivity|].
  intros H. apply orb_false_iff in H as [He Hr].
  rewrite He, (IH Hr). reflexivity.
Qed.

Lemma elements_delete_subset (l x : lid) (s : t) :
  In x (elements (delete l s)) -> In x (elements s).
Proof.
  induction s as [|[y|] r IH]; simpl; [tauto| |exact IH].
  destruct (Nat.eqb y l); simpl; tauto.
Qed.

Lemma wf_delete (l : lid) (s : t) : wf s -> wf (delete l s).
Proof.
  unfold wf. rewrite !distinct_NoDup.
  induction s as [|[y|] r IH]; simpl; [tauto| |exact IH].
  intros Hnd. inversion Hnd as [|? ? Hy Hr]; subst.
  destruct (Nat.eqb y l); simpl; [assumption|].
  constructor; [|auto].
  intros Hin. apply Hy. eapply elements_delete_subset; eassumption.
Qed.

Lemma has_delete (l : lid) (s : t) : wf s -> has l (delete l s) = false.
Proof.
  unfold wf. rewrite distinct_NoDup, has_false_elements.
  induction s as [|[y|] r IH]; simpl; [tauto| |exact IH].
  intros Hnd. inversion Hnd as [|? ? Hy Hr]; subst.
  destruct (Nat.eqb y l) eqn:E; simpl.
  - apply Nat.eqb_eq in E. now subst.
  - apply Nat.eqb_neq in E. intros [H|H]; [contradiction | now apply IH].
Qed.

Lemma has_delete_other (l x : lid) (s : t) :
  has x s = false -> has x (delete l s) = false.
Proof.
  rewrite !has_false_elements. intros H Hin. apply H.
  eapply elements_delete_subset; eassumption.
Qed.

Lemma wf_add (l : lid) (s : t) : wf s -> wf (add l s).
Proof.
  unfold add. destruct (has l s) eqn:E; [tauto|].
  unfold wf. rewrite !distinct_NoDup, elements_app. simpl.
  apply has_false_elements in E. intros Hnd.
  apply NoDup_app; auto.
  - constructor; [tauto | constructor].
  - intros a Ha [<-|[]]. contradiction.
Qed.

Lemma has_add_other (l x : lid) (s : t) :
  x <> l -> has x s = false -> has x (add l s) = false.
Proof.
  intros Hne H. unfold add. destruct (has l s); [assumption|].
  unfold has in *. rewrite existsb_app, H. simpl.
  apply Nat.eqb_neq in Hne. rewrite Nat.eqb_sym, Hne. reflexivity.
Qed.

Lemma wf_empty : wf empty.
Proof. reflexivity. Qed.

Lemma nth_slot (s : t) (i : nat) (l : lid) :
  nth_error s i = Some (Some l) -> In l (elements s).
Proof. intros H. apply slot_elements. eapply nth_error_In; eassumption. Qed.

End JSSetFacts.

(** ** Runs of the store *)

Section Runs.

Variable State : Type.
Variable body : lid -> State -> prog State.

Local Abbreviation Store := (Store State).
Local Abbreviation setState := (setState body).
Local Abbreviation forEach := (forEach body).
Local Abbreviation run := (run body).
Local Abbreviation setStates := (setStates body).

Lemma store_of_andThen (P : Store -> Prop) (o : outcome State)
      (k : Store -> outcome State) :
  P (store_of o) ->
  (forall st, P st -> P (store_of (k st))) ->
  P (store_of (andThen o k)).
Proof. destruct o as [st|st]; simpl; auto. Qed.

(** *** Invariants

    A property of the store that every elementary step keeps is kept by
    [setState], [forEach] and the listeners' code, whatever the fuel, and
    so holds at the moment a run is stopped as well.  [ok] restricts the
    code of the listeners. *)
Section Invariant.

Variable Inv : Store -> Prop.
Variable ok : prog State -> Prop.

Hypothesis Inv_assign : forall s st, Inv st -> Inv (assign s st).
Hypothesis Inv_called :
  forall p l st, Inv st -> In (Some l) (listeners st) ->
                 Inv (called p l st).
Hypothesis Inv_observed : forall st, Inv st -> Inv (observed st).
Hypothesis Inv_subscribe :
  forall l k st, ok (Subscribe l k) -> Inv st -> Inv (fst (subscribe l st)).
Hypothesis Inv_unsubscribe :
  forall l k st, ok (Unsubscribe l k) -> Inv st -> Inv (unsubscribe l st).
Hypothesis ok_body : forall l s, ok (body l s).
Hypothesis ok_Get : forall k s, ok (GetState k) -> ok (k s).
Hypothesis ok_SetState : forall u k, ok (SetState u k) -> ok k.
Hypothesis ok_Sub : forall l k, ok (Subscribe l k) -> ok k.
Hypothesis ok_Unsub : forall l k, ok (Unsubscribe l k) -> ok k.

Lemma invariant_fuel (fuel : nat) :
  (forall u st, Inv st -> Inv (store_of (setState fuel u st))) /\
  (forall p i st, Inv st -> Inv (store_of (forEach fuel p i st))) /\
  (forall c st, ok c -> Inv st -> Inv (store_of (run fuel c st))).
Proof.
  induction fuel as [|n [IHset [IHeach IHrun]]].
  - repeat split; intros; simpl; assumption.
  - split; [|split].
    + intros u st Hst. simpl. apply IHeach. now apply Inv_assign.
    + intros p i st Hst. simpl.
      destruct (nth_error (listeners st) i) as [[l|]|] eqn:E; simpl.
      * apply store_of_andThen.
        -- apply IHrun; [apply ok_body|].
           apply Inv_called; [assumption|].
           eapply nth_error_In; eassumption.
        -- intros st1 H1. now apply IHeach.
      * now apply IHeach.
      * assumption.
    + intros c st Hc Hst. destruct c as [|k|u k|l k|l k]; simpl.
      * assumption.
      * apply IHrun; [now apply ok_Get | now apply Inv_observed].
      * apply store_of_andThen; [now apply IHset|].
        intros st1 H1. apply IHrun; [eapply ok_SetState; eassumption | assumption].
      * apply IHrun; [eapply ok_Sub; eassumption|].
        eapply Inv_subscribe; eassumption.
      * apply IHrun; [eapply ok_Unsub; eassumption|].
        eapply Inv_unsubscribe; eassumption.
Qed.

Lemma invariant_setState fuel u st :
  Inv st -> Inv (store_of (setState fuel u st)).
Proof. apply (invariant_fuel fuel). Qed.

Lemma invariant_setStates fuel us st :
  Inv st -> Inv (store_of (setStates fuel us st)).
Proof.
  revert st. induction us as [|u r IH]; intros st Hst; simpl.
  - assumption.
  - apply store_of_andThen; [now apply invariant_setState | exact IH].
Qed.

End Invariant.

(** *** Histories *)

Lemma calls_of_app (l : lid) (a b : list (event State)) :
  calls_of l (a ++ b) = calls_of l a ++ calls_of l b.
Proof.
  induction a as [|[s|p l' s|s] r IH]; simpl; auto.
  destruct (Nat.eqb l' l); simpl; now rewrite IH.
Qed.

Lemma calls_of_notifications_in (p : nat) (s : State) (l : lid) (ls : list lid) :
  JSSet.distinct ls = true -> In l ls ->
  calls_of l (notifications p s ls) = [s].
Proof.
  induction ls as [|x r IH]; simpl; [tauto|].
  intros Hd Hin. apply andb_true_iff in Hd as [Hx Hr].
  apply negb_true_iff in Hx.
  destruct (Nat.eqb x l) eqn:E.
  - apply Nat.eqb_eq in E. subst x. f_equal.
    clear IH Hin Hr. induction r as [|y r IH]; simpl in *; [reflexivity|].
    apply orb_false_iff in Hx as [Hy Hr].
    rewrite Nat.eqb_sym, Hy. now apply IH.
  - apply Nat.eqb_neq in E. destruct Hin as [?|Hin]; [contradiction|].
    now apply IH.
Qed.

Lemma calls_of_notifications_out (p : nat) (s : State) (l : lid) (ls : list lid) :
  ~ In l ls -> calls_of l (notifications p s ls) = [].
Proof.
  induction ls as [|x r IH]; simpl; [reflexivity|].
  intros Hn. destruct (Nat.eqb x l) eqn:E.
  - apply Nat.eqb_eq in E. tauto.
  - apply IH. tauto.
Qed.

Lemma calls_of_none (l : lid) (evs : list (event State)) :
  calls_of l evs = [] <-> (forall p s, ~ In (Call p l s) evs).
Proof.
  induction evs as [|[s|p l' s|s] r IH]; simpl.
  - tauto.
  - rewrite IH. split; intros H p' s'; [intros [?|?]; [discriminate|] | ];
      firstorder.
  - destruct (Nat.eqb l' l) eqn:E.
    + apply Nat.eqb_eq in E. subst. split; [discriminate|].
      intros H. exfalso. apply (H p s). now left.
    + apply Nat.eqb_neq in E. rewrite IH. split; intros H p' s'.
      * intros [Heq|Hin]; [congruence | now apply (H p' s')].
      * intros Hin. apply (H p' s'). now right.
  - rewrite IH. split; intros H p' s'; [intros [?|?]; [discriminate|] | ];
      firstorder.
Qed.

Lemma last_committed_app (cur : State) (a b : list (event State)) :
  last_committed cur (a ++ b) = last_committed (last_committed cur a) b.
Proof.
  revert cur. induction a as [|[s|p l s|s] r IH]; intros cur; simpl; auto.
Qed.

Lemma coherent_app (cur : State) (a b : list (event State)) :
  coherent cur (a ++ b) <->
  coherent cur a /\ coherent (last_committed cur a) b.
Proof.
  revert cur. induction a as [|[s|p l s|s] r IH]; intros cur; simpl;
    rewrite ?IH; tauto.
Qed.

Lemma last_committed_no_commit (cur : State) (evs : list (event State)) :
  no_commit evs -> last_committed cur evs = cur.
Proof.
  induction evs as [|[s|p l s|s] r IH]; simpl; tauto.
Qed.

(** *** Listeners that leave the store alone *)

Lemma skipn_nth (X : Type) (xs : list X) (i : nat) (x : X) :
  nth_error xs i = Some x -> skipn i xs = x :: skipn (S i) xs.
Proof.
  revert i. induction xs as [|y r IH]; intros [|i]; simpl; try discriminate.
  - now intros [= ->].
  - intros H. rewrite (IH i H). reflexivity.
Qed.

Lemma forEach_quiet (n p i : nat) (st : Store) :
  quiet_on body st ->
  List.length (listeners st) - i < n ->
  forEach n p i st =
  Fin (mkStore (storeState st) (listeners st) (writes st)
               (trace st ++ notifications p (storeState st)
                     (JSSet.elements (skipn i (listeners st))))).
Proof.
  revert i st. induction n as [|n IH]; intros i st Hq Hlen; [lia|].
  simpl. destruct (nth_error (listeners st) i) as [e|] eqn:E.
  - assert (Hi : i < List.length (listeners st))
      by (apply nth_error_Some; congruence).
    rewrite (skipn_nth _ _ E). destruct e as [l|].
    + rewrite (Hq l (JSSetFacts.nth_slot _ _ E)).
      destruct n as [|n']; [lia|].
      change (run (S n') Done (called p l st)) with (Fin (called p l st)).
      cbn [andThen]. rewrite IH.
      * simpl. rewrite <- app_assoc. reflexivity.
      * exact Hq.
      * simpl. lia.
    + rewrite IH; [reflexivity | exact Hq | lia].
  - apply nth_error_None in E. rewrite skipn_all2 by exact E.
    simpl. rewrite app_nil_r. now destruct st.
Qed.

Lemma setState_quiet (n : nat) (u : updater State) (st : Store) :
  quiet_on body st ->
  List.length (listeners st) + 2 <= n ->
  setState n u st =
  Fin (notified (next_state u (storeState st))
                (JSSet.elements (listeners st)) st).
Proof.
  intros Hq Hn. destruct n as [|n]; [lia|].
  simpl. rewrite forEach_quiet.
  - unfold notified, notifications. simpl. rewrite <- app_assoc.
    destruct u; reflexivity.
  - exact Hq.
  - simpl. lia.
Qed.

(** *** Fuel: a finished run is the same with more fuel *)

Lemma andThen_Fin (o : outcome State) (k : Store -> outcome State) st' :
  andThen o k = Fin st' -> exists st1, o = Fin st1 /\ k st1 = Fin st'.
Proof. destruct o as [st1|st1]; simpl; [eauto | discriminate]. Qed.

Lemma more_fuel (n : nat) :
  (forall u st st', setState n u st = Fin st' ->
     forall m, n <= m -> setState m u st = Fin st') /\
  (forall p i st st', forEach n p i st = Fin st' ->
     forall m, n <= m -> forEach m p i st = Fin st') /\
  (forall c st st', run n c st = Fin st' ->
     forall m, n <= m -> run m c st = Fin st').
Proof.
  induction n as [|n [IHset [IHeach IHrun]]].
  - repeat split; intros; discriminate.
  - split; [|split].
    + intros u st st' H [|m] Hm; [lia|]. simpl in *.
      apply IHeach with (m := m) in H; [exact H | lia].
    + intros p i st st' H [|m] Hm; [lia|]. simpl in *.
      destruct (nth_error (listeners st) i) as [[l|]|]; [| |exact H].
      * apply andThen_Fin in H as [st1 [H1 H2]].
        rewrite (IHrun _ _ _ H1 m) by lia. simpl.
        apply IHeach; [exact H2 | lia].
      * apply IHeach; [exact H | lia].
    + intros c st st' H [|m] Hm; [lia|].
      destruct c as [|k|u k|l k|l k]; simpl in *.
      * exact H.
      * apply IHrun; [exact H | lia].
      * apply andThen_Fin in H as [st1 [H1 H2]].
        rewrite (IHset _ _ _ H1 m) by lia. simpl.
        apply IHrun; [exact H2 | lia].
      * apply IHrun; [exact H | lia].
      * apply IHrun; [exact H | lia].
Qed.

(** *** The listener Set stays well formed *)

Lemma wf_subscribe (l : lid) (st : Store) :
  JSSet.wf (listeners st) -> JSSet.wf (listeners (fst (subscribe l st))).
Proof. simpl. apply JSSetFacts.wf_add. Qed.

Lemma wf_unsubscribe (l : lid) (st : Store) :
  JSSet.wf (listeners st) -> JSSet.wf (listeners (unsubscribe l st)).
Proof. simpl. apply JSSetFacts.wf_delete. Qed.

Lemma wf_setState (fuel : nat) (u : updater State) (st : Store) :
  JSSet.wf (listeners st) ->
  JSSet.wf (listeners (store_of (setState fuel u st))).
Proof.
  apply (invariant_setState (fun st => JSSet.wf (listeners st))
                            (fun _ => True)); auto.
  - intros l k st' _. apply wf_subscribe.
  - intros l k st' _. apply wf_unsubscribe.
Qed.

Lemma reachable_wf (st : Store) :
  reachable body st -> JSSet.wf (listeners st).
Proof.
  induction 1 as [s0|l st _ IH|l st _ IH|fuel u st _ IH].
  - apply JSSetFacts.wf_empty.
  - now apply wf_subscribe.
  - now apply wf_unsubscribe.
  - now apply wf_setState.
Qed.

(** *** The history is coherent *)

Lemma continues_refl (st : Store) : continues st st.
Proof. exists []. simpl. now rewrite app_nil_r. Qed.

Lemma continues_event (st0 st st' : Store) (e : event State) :
  continues st0 st ->
  trace st' = trace st ++ [e] ->
  coherent (storeState st) [e] ->
  storeState st' = last_committed (storeState st) [e] ->
  continues st0 st'.
Proof.
  intros [evs [Ht [Hc Hs]]] Ht' Hc' Hs'. exists (evs ++ [e]).
  rewrite Ht', Ht, <- app_assoc, coherent_app, last_committed_app, <- Hs.
  auto.
Qed.

Ltac logs_event H :=
  eapply continues_event;
  [exact H | reflexivity | simpl; auto | reflexivity].

Lemma continues_fuel (st0 : Store) (fuel : nat) :
  (forall u st, continues st0 st ->
                continues st0 (store_of (setState fuel u st))) /\
  (forall p i st, continues st0 st ->
                  continues st0 (store_of (forEach fuel p i st))) /\
  (forall c st, True -> continues st0 st ->
                continues st0 (store_of (run fuel c st))).
Proof.
  apply (invariant_fuel (continues st0) (fun _ => True)); auto.
  - intros s st H. logs_event H.
  - intros p l st H _. logs_event H.
  - intros st H. logs_event H.
Qed.

Lemma continues_setStates (fuel : nat) (us : list (updater State))
      (st : Store) :
  continues st (store_of (setStates fuel us st)).
Proof.
  apply (invariant_setStates (continues st) (fun _ => True)); auto.
  - intros s st' H. logs_event H.
  - intros p l st' H _. logs_event H.
  - intros st' H. logs_event H.
  - apply continues_refl.
Qed.

(** Two listener calls with no commit in between carry the same state. *)
Lemma coherent_between (cur : State) (a b c : list (event State))
      p1 l1 s1 p2 l2 s2 :
  coherent cur (a ++ Call p1 l1 s1 :: b ++ Call p2 l2 s2 :: c) ->
  no_commit b -> s1 = s2.
Proof.
  rewrite coherent_app. simpl. rewrite coherent_app. simpl.
  intros [_ [H1 [_ [H2 _]]]] Hb.
  rewrite H1, H2. symmetry. now apply last_committed_no_commit.
Qed.

(** *** A listener that is not registered is not called *)

Lemma silent_setStates (l : lid) (fuel : nat) (us : list (updater State))
      (st : Store) :
  (forall l' s, never_subscribes l (body l' s)) ->
  JSSet.has l (listeners st) = false ->
  silent l st (store_of (setStates fuel us st)).
Proof.
  intros Hbody Hl.
  apply (invariant_setStates (silent l st) (never_subscribes l)).
  - intros s st' [Hh [evs [Ht Hc]]]. split; [exact Hh|].
    exists (evs ++ [Commit s]). simpl. rewrite Ht, <- app_assoc.
    split; [reflexivity|]. rewrite calls_of_app, Hc. reflexivity.
  - intros p l' st' [Hh [evs [Ht Hc]]] Hin. split; [exact Hh|].
    exists (evs ++ [Call p l' (storeState st')]). simpl.
    rewrite Ht, <- app_assoc. split; [reflexivity|].
    rewrite calls_of_app, Hc. simpl.
    destruct (Nat.eqb l' l) eqn:E; [|reflexivity].
    apply Nat.eqb_eq in E. subst l'.
    apply JSSetFacts.slot_elements, JSSetFacts.has_elements in Hin.
    congruence.
  - intros st' [Hh [evs [Ht Hc]]]. split; [exact Hh|].
    exists (evs ++ [Read (getState st')]). simpl. rewrite Ht, <- app_assoc.
    split; [reflexivity|]. rewrite calls_of_app, Hc. reflexivity.
  - intros l' k st' [Hne _] [Hh Hevs]. split; [|exact Hevs].
    simpl. apply JSSetFacts.has_add_other; auto.
  - intros l' k st' _ [Hh Hevs]. split; [|exact Hevs].
    simpl. now apply JSSetFacts.has_delete_other.
  - exact Hbody.
  - intros k s H. apply H.
  - intros u k H. exact H.
  - intros l' k [_ H]. exact H.
  - intros l' k H. exact H.
  - split; [exact Hl|]. exists []. now rewrite app_nil_r.
Qed.

(** ** The statements of the specification *)

(** C1, as amended.  When the registered listeners do nothing with the store
    while they are notified, [setState(s1)] with a value [s1] returns, after
    it [getState()] is [s1], and what it added to the history is the commit
    of [s1] followed by one call with [s1] for each registered listener, in
    the order of registration: every registered listener was called exactly
    once, with [s1]. *)
Theorem setState_value_notifies (s1 : State) (st : Store) (fuel : nat) :
  JSSet.wf (listeners st) ->
  quiet_on body st ->
  List.length (listeners st) + 2 <= fuel ->
  exists st',
    setState fuel (UVal s1) st = Fin st' /\
    getState st' = s1 /\
    trace st' =
      trace st ++
      Commit s1 ::
      notifications (writes st) s1 (JSSet.elements (listeners st)) /\
    forall l, JSSet.has l (listeners st) = true ->
      calls_of l (Commit s1 ::
                  notifications (writes st) s1
                                (JSSet.elements (listeners st))) = [s1].
Proof.
  intros Hwf Hq Hfuel. eexists. split; [|split; [|split]].
  - apply setState_quiet; assumption.
  - reflexivity.
  - reflexivity.
  - intros l Hl. simpl. apply calls_of_notifications_in; [exact Hwf|].
    now apply JSSetFacts.has_elements.
Qed.

(** C2, as amended.  Through every sequence of [setState] calls, with
    listeners that may call [setState], [subscribe] and unsubscribe
    functions themselves, and at whatever moment the run is looked at:
    [getState()] is the state committed last, every [getState()] made on
    the way returned the state committed last before it, and every
    listener call carried the state committed last before that call; two
    listener calls between which nothing was committed carried the same
    state. *)
Theorem listeners_see_committed_state
        (fuel : nat) (us : list (updater State)) (st : Store) :
  exists evs,
    trace (store_of (setStates fuel us st)) = trace st ++ evs /\
    coherent (getState st) evs /\
    getState (store_of (setStates fuel us st)) =
      last_committed (getState st) evs /\
    (forall a b c p1 l1 s1 p2 l2 s2,
        evs = a ++ Call p1 l1 s1 :: b ++ Call p2 l2 s2 :: c ->
        no_commit b -> s1 = s2).
Proof.
  destruct (continues_setStates fuel us st) as [evs [Ht [Hc Hs]]].
  exists evs. repeat split; try assumption.
  intros a b c p1 l1 s1 p2 l2 s2 -> Hb.
  eapply coherent_between; eassumption.
Qed.

(** C3, as amended.  [setState(f)] with a function [f] commits [f] of the
    state that [getState()] returned just before the call: that commit is
    the first thing the call adds to the history, before any listener is
    called, all that follows is coherent with it, and [getState()] is
    [f prev] for as long as no listener commits another state; with
    listeners that make no call on the store the call returns and
    [getState()] is [f prev] afterwards. *)
Theorem setState_updater_commits
        (f : State -> State) (st : Store) (fuel : nat) :
  let prev := getState st in
  (exists evs,
      trace (store_of (setState (S fuel) (UFun f) st)) =
        trace st ++ Commit (f prev) :: evs /\
      coherent (f prev) evs /\
      (no_commit evs ->
       getState (store_of (setState (S fuel) (UFun f) st)) = f prev)) /\
  (quiet_on body st ->
   List.length (listeners st) + 1 <= fuel ->
   exists st',
     setState (S fuel) (UFun f) st = Fin st' /\ getState st' = f prev).
Proof.
  intros prev. split.
  - change (setState (S fuel) (UFun f) st)
      with (forEach fuel (writes st) 0 (assign (f prev) st)).
    destruct (continues_fuel (assign (f prev) st) fuel) as [_ [Heach _]].
    destruct (Heach (writes st) 0 _ (continues_refl _))
      as [evs [Ht [Hc Hs]]].
    exists evs. simpl in Ht, Hc, Hs. split; [|split].
    + rewrite Ht, <- app_assoc. reflexivity.
    + exact Hc.
    + intros Hn. unfold getState. rewrite Hs.
      now apply last_committed_no_commit.
  - intros Hq Hfuel. eexists. split.
    + apply setState_quiet; [exact Hq | lia].
    + reflexivity.
Qed.

(** C5.  Once the unsubscribe function that [subscribe(listener)] returned
    has been called, no later [setState] calls the listener, whatever the
    writes and however far they have run, as long as no listener subscribes
    it again; the calls it received before are still in the history. *)
Theorem unsubscribe_stops_delivery
        (l : lid) (st0 st : Store) (fuel : nat) (us : list (updater State)) :
  JSSet.wf (listeners st) ->
  (forall l' s, never_subscribes l (body l' s)) ->
  let unsubscribeFn := snd (subscribe l st0) in
  let st' := store_of (setStates fuel us (unsubscribeFn st)) in
  (exists evs,
      trace st' = trace st ++ evs /\
      forall p s, ~ In (Call p l s) evs) /\
  calls_of l (trace st') = calls_of l (trace st).
Proof.
  intros Hwf Hbody unsubscribeFn st'. subst st' unsubscribeFn.
  change (snd (subscribe l st0)) with (unsubscribe (State := State) l).
  destruct (silent_setStates l fuel us (unsubscribe l st) Hbody)
    as [_ [evs [Ht Hc]]].
  - simpl. now apply JSSetFacts.has_delete.
  - change (trace (unsubscribe l st)) with (trace st) in Ht. split.
    + exists evs. split; [exact Ht|]. now apply calls_of_none.
    + rewrite Ht, calls_of_app, Hc. apply app_nil_r.
Qed.

(** C7, as amended.  [setState] makes no comparison with the current
    state: what a write of a value does is the same whatever the state was
    before, and, when the registered listeners make no call on the store
    while they are notified, a write whose result equals the current state
    commits it and calls every registered listener with it, once each. *)
Theorem unchanged_write_still_notifies
        (u : updater State) (st : Store) (fuel : nat) :
  (forall v prev n,
      setState (S n) (UVal v)
               (mkStore prev (listeners st) (writes st) (trace st)) =
      setState (S n) (UVal v) st) /\
  (next_state u (getState st) = getState st ->
   JSSet.wf (listeners st) ->
   quiet_on body st ->
   List.length (listeners st) + 2 <= fuel ->
   exists st',
     setState fuel u st = Fin st' /\
     getState st' = getState st /\
     trace st' =
       trace st ++
       Commit (getState st) ::
       notifications (writes st) (getState st)
                     (JSSet.elements (listeners st)) /\
     forall l, JSSet.has l (listeners st) = true ->
       calls_of l (notifications (writes st) (getState st)
                                 (JSSet.elements (listeners st)))
       = [getState st]).
Proof.
  split.
  - intros v prev n. reflexivity.
  - unfold getState. intros Hsame Hwf Hq Hfuel.
    eexists. split; [|split; [|split]].
    + apply setState_quiet; assumption.
    + exact Hsame.
    + unfold notified, notifications. cbn [trace]. rewrite Hsame.
      reflexivity.
    + intros l Hl. apply calls_of_notifications_in; [exact Hwf|].
      now apply JSSetFacts.has_elements.
Qed.

(** C8.  Calling the unsubscribe function a second time changes nothing:
    the store is the one the first call left, with the same listeners and
    the same state, and every later write does the same. *)
Theorem double_unsubscribe_noop (l : lid) (st0 st : Store) :
  JSSet.wf (listeners st) ->
  let unsubscribeFn := snd (subscribe l st0) in
  unsubscribeFn (unsubscribeFn st) = unsubscribeFn st /\
  listeners (unsubscribeFn (unsubscribeFn st)) =
    listeners (unsubscribeFn st) /\
  getState (unsubscribeFn (unsubscribeFn st)) = getState (unsubscribeFn st) /\
  forall fuel us,
    setStates fuel us (unsubscribeFn (unsubscribeFn st)) =
    setStates fuel us (unsubscribeFn st).
Proof.
  intros Hwf unsubscribeFn.
  assert (H : unsubscribeFn (unsubscribeFn st) = unsubscribeFn st).
  { unfold unsubscribeFn. simpl. unfold unsubscribe at 1. simpl.
    rewrite JSSetFacts.delete_absent; [reflexivity|].
    now apply JSSetFacts.has_delete. }
  rewrite H. auto.
Qed.

(** C9, as amended.  Subscribing a listener that is registered already
    leaves the store as it is, with no second entry; when the registered
    listeners make no call on the store while they are notified, a
    [setState] after it calls that listener exactly once. *)
Theorem resubscribe_noop (l : lid) (st : Store) :
  JSSet.has l (listeners st) = true ->
  fst (subscribe l st) = st /\
  (JSSet.wf (listeners st) ->
   quiet_on body st ->
   forall fuel u,
     List.length (listeners st) + 2 <= fuel ->
     exists st' evs,
       setState fuel u (fst (subscribe l st)) = Fin st' /\
       trace st' = trace st ++ evs /\
       calls_of l evs = [next_state u (getState st)]).
Proof.
  intros Hl.
  assert (H : fst (subscribe l st) = st).
  { simpl. rewrite JSSetFacts.add_present by exact Hl. now destruct st. }
  split; [exact H|]. intros Hwf Hq fuel u Hfuel. rewrite H.
  eexists. eexists. split; [|split].
  - apply setState_quiet; assumption.
  - reflexivity.
  - simpl. apply calls_of_notifications_in; [exact Hwf|].
    now apply JSSetFacts.has_elements.
Qed.

(** C10.  [subscribe(listener)] calls nobody and leaves the state alone:
    [getState()] and the history are what they were; the listener is
    called, with the new state, by the [setState] that follows. *)
Theorem subscribe_does_not_notify (l : lid) (st : Store) :
  getState (fst (subscribe l st)) = getState st /\
  trace (fst (subscribe l st)) = trace st /\
  calls_of l (trace (fst (subscribe l st))) = calls_of l (trace st) /\
  (JSSet.wf (listeners st) ->
   quiet_on body (fst (subscribe l st)) ->
   forall fuel u,
     List.length (listeners (fst (subscribe l st))) + 2 <= fuel ->
     exists st',
       setState fuel u (fst (subscribe l st)) = Fin st' /\
       calls_of l (trace st') =
         calls_of l (trace st) ++ [next_state u (getState st)]).
Proof.
  repeat split. intros Hwf Hq fuel u Hfuel. eexists. split.
  - apply setState_quiet; assumption.
  - cbn [notified trace]. rewrite calls_of_app. f_equal.
    change (trace (fst (subscribe l st))) with (trace st).
    simpl. apply calls_of_notifications_in.
    + now apply JSSetFacts.wf_add.
    + apply JSSetFacts.has_elements, JSSetFacts.has_add.
Qed.

End Runs.

(** ** The counter of the application *)

Section Application.

Variable body : lid -> App.AppState -> prog App.AppState.

(** C4.  On the store of [store.js], created with [{count: 0}], with one
    listener subscribed before any write, three calls of
    [setState(s => ({...s, count: s.count + 1}))] return, leave
    [{count: 3}] as the state, and the listener has been called three
    times, with the counts 1, 2 and 3 in this order. *)
Theorem three_increments (l : lid) (fuel : nat) :
  (forall s, body l s = Done) ->
  3 <= fuel ->
  exists st3,
    setStates body fuel [App.increment; App.increment; App.increment]
              (fst (subscribe l App.store)) = Fin st3 /\
    getState st3 = {| App.count := 3 |} /\
    calls_of l (trace st3) =
      [{| App.count := 1 |}; {| App.count := 2 |}; {| App.count := 3 |}].
Proof.
  intros Hl Hfuel.
  assert (Hq : forall st : Store App.AppState,
             listeners st = [Some l] -> quiet_on body st).
  { intros st Hst l' Hin s. rewrite Hst in Hin. simpl in Hin.
    destruct Hin as [<-|[]]. apply Hl. }
  eexists. split; [|split].
  - unfold setStates.
    rewrite setState_quiet; [|now apply Hq | simpl; lia]. cbn [andThen].
    rewrite setState_quiet; [|now apply Hq | simpl; lia]. cbn [andThen].
    rewrite setState_quiet; [|now apply Hq | simpl; lia]. reflexivity.
  - reflexivity.
  - simpl. rewrite Nat.eqb_refl. reflexivity.
Qed.

End Application.

(** ** The consumption hook *)

Section ProviderFacts.

Variable State : Type.
Variable A : Type.


End ProviderFacts.

(** ** Instances *)

Module Instances.
Import Examples.

(** C1 as stated fails: listener 1 is registered when [setState(7)] is
    called, listener 0 cancels it during the notification, the call
    returns and listener 1 has not been called, with any fuel. *)
Lemma canceller_drops_listener :
  JSSet.wf (listeners two) /\
  JSSet.has 1 (listeners two) = true /\
  (exists st',
      setState canceller 4 (UVal 7) two = Fin st' /\
      getState st' = 7 /\
      trace st' = [Commit 7; Call 0 0 7] /\
      calls_of 1 (trace st') = []) /\
  (forall fuel st',
      setState canceller fuel (UVal 7) two = Fin st' ->
      calls_of 1 (trace st') = []).
Proof.
  split; [reflexivity|]. split; [reflexivity|]. split.
  - eexists. repeat split.
  - intros fuel st' H.
    assert (H4 : 4 <= fuel).
    { do 4 (destruct fuel as [|fuel]; [discriminate|]). lia. }
    assert (E : setState canceller 4 (UVal 7) two
                = Fin (mkStore 7 [Some 0; None] 1 [Commit 7; Call 0 0 7]))
      by reflexivity.
    destruct (more_fuel canceller 4) as [Hset _].
    rewrite (Hset _ _ _ E fuel H4) in H. injection H as <-. reflexivity.
Qed.

(** C2 as stated fails: listener 0 answers state 1 with [setState(2)];
    in the notification pass of [setState(1)] (pass 0) listener 0 is called
    with 1 and listener 1 with 2. *)
Lemma rewriter_splits_pass :
  exists st',
    setState rewriter 8 (UVal 1) two = Fin st' /\
    trace st' =
      [Commit 1; Call 0 0 1; Commit 2; Call 1 0 2; Call 1 1 2; Call 0 1 2] /\
    In (Call 0 0 1) (trace st') /\
    In (Call 0 1 2) (trace st') /\
    ~ one_view (trace st').
Proof.
  eexists. split; [reflexivity|]. split; [reflexivity|].
  assert (H1 : In (Call 0 0 1)
                  [Commit 1; Call 0 0 1; Commit 2; Call 1 0 2;
                   Call 1 1 2; Call 0 1 2]) by (simpl; auto).
  assert (H2 : In (Call 0 1 2)
                  [Commit 1; Call 0 0 1; Commit 2; Call 1 0 2;
                   Call 1 1 2; Call 0 1 2]) by (simpl; auto 10).
  split; [exact H1|]. split; [exact H2|].
  intros Hv. specialize (Hv 0 0 1 1 2 H1 H2). discriminate.
Qed.

(** Two quiet listeners are both told of [setState(7)]. *)
Lemma setState_value_notifies_two :
  exists st',
    setState quiet 4 (UVal 7) two = Fin st' /\
    getState st' = 7 /\
    trace st' = [Commit 7; Call 0 0 7; Call 0 1 7] /\
    forall l, JSSet.has l (listeners two) = true ->
      calls_of l [Commit 7; Call 0 0 7; Call 0 1 7] = [7].
Proof.
  apply (@setState_value_notifies nat quiet 7 two 4).
  - reflexivity.
  - intros l _ s. reflexivity.
  - simpl. lia.
Defined.

(** The updater [s => s + 5] on the store with two quiet listeners. *)
Lemma setState_updater_commits_two :
  (exists evs,
      trace (store_of (setState quiet 4 (UFun (fun s => s + 5)) two)) =
        Commit 5 :: evs /\
      coherent 5 evs /\
      (no_commit evs ->
       getState (store_of (setState quiet 4 (UFun (fun s => s + 5)) two))
       = 5)) /\
  exists st',
    setState quiet 4 (UFun (fun s => s + 5)) two = Fin st' /\
    getState st' = 5.
Proof.
  destruct (@setState_updater_commits nat quiet (fun s => s + 5) two 3)
    as [H1 H2].
  split; [exact H1|]. apply H2.
  - intros l _ s. reflexivity.
  - simpl. lia.
Defined.

(** The three increments, heard by listener 0. *)
Lemma three_increments_recorder :
  exists st3,
    setStates App.recorder 3
              [App.increment; App.increment; App.increment]
              (fst (subscribe 0 App.store)) = Fin st3 /\
    getState st3 = {| App.count := 3 |} /\
    calls_of 0 (trace st3) =
      [{| App.count := 1 |}; {| App.count := 2 |}; {| App.count := 3 |}].
Proof.
  apply (@three_increments App.recorder 0 3).
  - intros s. reflexivity.
  - lia.
Defined.

(** Listener 1 hears [setState(7)], is unsubscribed, and hears nothing of
    the two writes that follow. *)
Lemma unsubscribe_stops_delivery_two :
  (exists evs,
      trace (store_of (setStates quiet 6 [UVal 3; UVal 4]
                                 (snd (subscribe 1 (createStore 0))
                                      (notified 7 [0; 1] two))))
      = [Commit 7; Call 0 0 7; Call 0 1 7] ++ evs /\
      forall p s, ~ In (Call p 1 s) evs) /\
  calls_of 1 (trace (store_of
                       (setStates quiet 6 [UVal 3; UVal 4]
                                  (snd (subscribe 1 (createStore 0))
                                       (notified 7 [0; 1] two)))))
  = [7].
Proof.
  apply (@unsubscribe_stops_delivery nat quiet 1 (createStore 0)
                                    (notified 7 [0; 1] two) 6
                                    [UVal 3; UVal 4]).
  - reflexivity.
  - intros l' s. exact I.
Defined.

(** Writing 0 over the state 0 of [two]. *)
Lemma unchanged_write_still_notifies_two :
  exists st',
    setState quiet 4 (UVal 0) two = Fin st' /\
    getState st' = 0 /\
    trace st' = [Commit 0; Call 0 0 0; Call 0 1 0] /\
    forall l, JSSet.has l (listeners two) = true ->
      calls_of l [Call 0 0 0; Call 0 1 0] = [0].
Proof.
  destruct (@unchanged_write_still_notifies nat quiet (UVal 0) two 4)
    as [_ H].
  apply H.
  - reflexivity.
  - reflexivity.
  - intros l _ s. reflexivity.
  - simpl. lia.
Defined.

(** Unsubscribing listener 0 of [two] twice. *)
Lemma double_unsubscribe_noop_two :
  snd (subscribe 0 (createStore 0)) (snd (subscribe 0 (createStore 0)) two)
  = snd (subscribe 0 (createStore 0)) two /\
  listeners (snd (subscribe 0 (createStore 0))
                 (snd (subscribe 0 (createStore 0)) two)) = [None; Some 1] /\
  getState (snd (subscribe 0 (createStore 0))
                (snd (subscribe 0 (createStore 0)) two)) = 0 /\
  forall fuel us,
    setStates quiet fuel us
              (snd (subscribe 0 (createStore 0))
                   (snd (subscribe 0 (createStore 0)) two)) =
    setStates quiet fuel us (snd (subscribe 0 (createStore 0)) two).
Proof.
  apply (@double_unsubscribe_noop nat quiet 0 (createStore 0) two).
  reflexivity.
Defined.

(** Subscribing listener 0 of [two] again. *)
Lemma resubscribe_noop_two :
  fst (subscribe 0 two) = two /\
  exists st' evs,
    setState quiet 4 (UVal 9) (fst (subscribe 0 two)) = Fin st' /\
    trace st' = trace two ++ evs /\
    calls_of 0 evs = [9].
Proof.
  destruct (@resubscribe_noop nat quiet 0 two) as [H1 H2].
  - reflexivity.
  - split; [exact H1|]. apply H2.
    + reflexivity.
    + intros l _ s. reflexivity.
    + simpl. lia.
Defined.

(** Subscribing a third listener to [two], then writing 9. *)
Lemma subscribe_does_not_notify_two :
  getState (fst (subscribe 2 two)) = 0 /\
  trace (fst (subscribe 2 two)) = [] /\
  exists st',
    setState quiet 5 (UVal 9) (fst (subscribe 2 two)) = Fin st' /\
    calls_of 2 (trace st') = [9].
Proof.
  destruct (@subscribe_does_not_notify nat quiet 2 two) as [H1 [H2 [_ H3]]].
  split; [exact H1|]. split; [exact H2|]. apply H3.
  - reflexivity.
  - intros l _ s. reflexivity.
  - simpl. lia.
Defined.

End Instances.

(** * Further properties of the code *)

(** ** More on the listener Set *)

Module JSSetMore.
Import JSSet.

Lemma length_add (l : lid) (s : t) :
  List.length s <= List.length (add l s).
Proof.
  unfold add. destruct (has l s); [lia|]. rewrite length_app. simpl. lia.
Qed.

Lemma nth_add_old (l : lid) (s : t) (j : nat) :
  j < List.length s -> nth_error (add l s) j = nth_error s j.
Proof.
  intros Hj. unfold add. destruct (has l s); [reflexivity|].
  now apply nth_error_app1.
Qed.

Lemma length_delete (l : lid) (s : t) :
  List.length (delete l s) = List.length s.
Proof.
  induction s as [|e r IH]; simpl; [reflexivity|].
  destruct (same l e); simpl; congruence.
Qed.

Lemma nth_delete_some (l x : lid) (s : t) (j : nat) :
  nth_error (delete l s) j = Some (Some x) ->
  nth_error s j = Some (Some x).
Proof.
  revert j. induction s as [|e r IH]; intros j; simpl; [tauto|].
  destruct (same l e).
  - destruct j; simpl; [discriminate | tauto].
  - destruct j; simpl; [tauto | apply IH].
Qed.

End JSSetMore.

Section MoreRuns.

Variable State : Type.
Variable body : lid -> State -> prog State.

Local Abbreviation Store := (Store State).
Local Abbreviation setState := (setState body).
Local Abbreviation forEach := (forEach body).
Local Abbreviation run := (run body).
Local Abbreviation setStates := (setStates body).

(** *** Slots *)

Lemma stable_refl (st : Store) : stable st st.
Proof. split; auto. Qed.

Lemma stable_fuel (st0 : Store) (fuel : nat) :
  (forall u st, stable st0 st -> stable st0 (store_of (setState fuel u st))) /\
  (forall p i st, stable st0 st ->
                  stable st0 (store_of (forEach fuel p i st))) /\
  (forall c st, True -> stable st0 st ->
                stable st0 (store_of (run fuel c st))).
Proof.
  apply (invariant_fuel body (stable st0) (fun _ => True)); auto.
  - intros l k st _ [Hlen Hold]. split; simpl.
    + pose proof (JSSetMore.length_add l (listeners st)). lia.
    + intros j x Hj Hx. apply Hold; [exact Hj|].
      rewrite JSSetMore.nth_add_old in Hx; [exact Hx | lia].
  - intros l k st _ [Hlen Hold]. split; simpl.
    + now rewrite JSSetMore.length_delete.
    + intros j x Hj Hx. apply Hold; [exact Hj|].
      eapply JSSetMore.nth_delete_some; eassumption.
Qed.

Lemma stable_run fuel c st st' : run fuel c st = Fin st' -> stable st st'.
Proof.
  intros H. destruct (stable_fuel st fuel) as [_ [_ Hrun]].
  specialize (Hrun c st I (stable_refl st)). now rewrite H in Hrun.
Qed.

Lemma stable_forEach fuel p i st st' :
  forEach fuel p i st = Fin st' -> stable st st'.
Proof.
  intros H. destruct (stable_fuel st fuel) as [_ [Heach _]].
  specialize (Heach p i st (stable_refl st)). now rewrite H in Heach.
Qed.

Lemma stable_setState fuel u st st' :
  setState fuel u st = Fin st' -> stable st st'.
Proof.
  intros H. destruct (stable_fuel st fuel) as [Hset _].
  specialize (Hset u st (stable_refl st)). now rewrite H in Hset.
Qed.

(** *** The last call of a listener *)

Lemma last_call_snoc (l : lid) (evs : list (event State)) (e : event State) :
  last_call l (evs ++ [e]) =
  match e with
  | Call _ l' s => if Nat.eqb l' l then Some s else last_call l evs
  | _ => last_call l evs
  end.
Proof.
  unfold last_call. rewrite calls_of_app.
  destruct e as [s|p l' s|s]; simpl; rewrite ?app_nil_r; try reflexivity.
  destruct (Nat.eqb l' l); [|now rewrite app_nil_r].
  rewrite map_app. simpl. apply last_last.
Qed.

Lemma last_app_nonempty (X : Type) (a b : list X) (d : X) :
  b <> [] -> last (a ++ b) d = last b d.
Proof.
  intros Hb. induction a as [|x r IH]; simpl; [reflexivity|].
  destruct (r ++ b) eqn:E.
  - apply app_eq_nil in E as [_ E]. contradiction.
  - exact IH.
Qed.

Lemma last_call_app_some (l : lid) (a b : list (event State)) (s : State) :
  last_call l b = Some s -> last_call l (a ++ b) = Some s.
Proof.
  unfold last_call. rewrite calls_of_app, map_app.
  destruct (calls_of l b) as [|x r]; [discriminate|].
  intros H. rewrite last_app_nonempty; [exact H | discriminate].
Qed.

(** *** Nobody is left with an old state

    [evs] being the history since some earlier moment: a finished
    [forEach] from index [i] has called, with the final state and after
    everything else, every listener it finds at a slot [i] or later, and a
    listener in an earlier slot that had the current state before still has
    it after. *)
Lemma sync_fuel (n : nat) :
  (forall u st st', setState n u st = Fin st' ->
     forall tr0 evs, trace st = tr0 ++ evs ->
     exists evs', trace st' = tr0 ++ evs' /\
       forall j l, nth_error (listeners st') j = Some (Some l) ->
                   last_call l evs' = Some (storeState st')) /\
  (forall p i st st', forEach n p i st = Fin st' ->
     forall tr0 evs, trace st = tr0 ++ evs ->
     exists evs', trace st' = tr0 ++ evs' /\
       forall j l, nth_error (listeners st') j = Some (Some l) ->
                   i <= j \/ last_call l evs = Some (storeState st) ->
                   last_call l evs' = Some (storeState st')) /\
  (forall c st st', run n c st = Fin st' ->
     forall tr0 evs, trace st = tr0 ++ evs ->
     exists evs', trace st' = tr0 ++ evs' /\
       forall j l, nth_error (listeners st') j = Some (Some l) ->
                   j < List.length (listeners st) ->
                   last_call l evs = Some (storeState st) ->
                   last_call l evs' = Some (storeState st')).
Proof.
  induction n as [|n [IHset [IHeach IHrun]]].
  - repeat split; intros; discriminate.
  - split; [|split].
    + intros u st st' H tr0 evs Ht. simpl in H.
      destruct (IHeach _ _ _ _ H tr0
                       (evs ++ [Commit (next_state u (storeState st))]))
        as [evs' [Ht' Hall]].
      { simpl. rewrite Ht, <- app_assoc. now destruct u. }
      exists evs'. split; [exact Ht'|].
      intros j l Hj. apply (Hall j l Hj). left. lia.
    + intros p i st st' H tr0 evs Ht. simpl in H.
      destruct (nth_error (listeners st) i) as [[l|]|] eqn:E.
      * apply andThen_Fin in H as [st1 [H1 H2]].
        destruct (IHrun _ _ _ H1 tr0 (evs ++ [Call p l (storeState st)]))
          as [evs1 [Ht1 Hkeep]].
        { simpl. rewrite Ht, <- app_assoc. reflexivity. }
        destruct (IHeach _ _ _ _ H2 tr0 evs1 Ht1) as [evs' [Ht' Hall]].
        exists evs'. split; [exact Ht'|].
        intros j x Hj Hor. apply (Hall j x Hj).
        destruct (Nat.lt_ge_cases i j) as [Hlt|Hge]; [left; lia|]. right.
        assert (Hi : i < List.length (listeners st))
          by (apply nth_error_Some; congruence).
        destruct (stable_forEach _ _ _ _ H2) as [Hlen2 Hold2].
        destruct (stable_run _ _ _ H1) as [Hlen1 Hold1].
        simpl in Hlen1, Hold1.
        assert (Hj1 : nth_error (listeners st1) j = Some (Some x))
          by (apply Hold2; [lia | exact Hj]).
        apply (Hkeep j x Hj1); [simpl; lia|].
        rewrite last_call_snoc. simpl.
        destruct (Nat.eqb l x) eqn:Elx; [reflexivity|].
        destruct Hor as [Hij|Hsync]; [|exact Hsync].
        assert (j = i) by lia. subst j.
        apply Hold1 in Hj1; [|exact Hi].
        rewrite E in Hj1. injection Hj1 as ->.
        now rewrite Nat.eqb_refl in Elx.
      * destruct (IHeach _ _ _ _ H tr0 evs Ht) as [evs' [Ht' Hall]].
        exists evs'. split; [exact Ht'|].
        intros j x Hj Hor. apply (Hall j x Hj).
        destruct Hor as [Hij|Hsync]; [|now right].
        destruct (Nat.eq_dec j i) as [->|Hne]; [|left; lia].
        destruct (stable_forEach _ _ _ _ H) as [_ Hold].
        apply Hold in Hj;
          [congruence | apply nth_error_Some; congruence].
      * injection H as <-. exists evs. split; [exact Ht|].
        intros j x Hj [Hij|Hsync]; [|exact Hsync].
        apply nth_error_None in E.
        assert (j < List.length (listeners st))
          by (apply nth_error_Some; congruence).
        lia.
    + intros c st st' H tr0 evs Ht.
      destruct c as [|k|u k|l k|l k]; simpl in H.
      * injection H as <-. exists evs. split; [exact Ht | auto].
      * destruct (IHrun _ _ _ H tr0 (evs ++ [Read (storeState st)]))
          as [evs' [Ht' Hkeep]].
        { simpl. rewrite Ht, <- app_assoc. reflexivity. }
        exists evs'. split; [exact Ht'|].
        intros j x Hj Hlt Hsync. apply (Hkeep j x Hj Hlt).
        rewrite last_call_snoc. exact Hsync.
      * apply andThen_Fin in H as [st1 [H1 H2]].
        destruct (IHset _ _ _ H1 tr0 evs Ht) as [evs1 [Ht1 Hall1]].
        destruct (IHrun _ _ _ H2 tr0 evs1 Ht1) as [evs' [Ht' Hkeep]].
        exists evs'. split; [exact Ht'|].
        intros j x Hj Hlt _.
        destruct (stable_setState _ _ _ H1) as [Hlen1 _].
        destruct (stable_run _ _ _ H2) as [_ Hold2].
        assert (Hj1 : nth_error (listeners st1) j = Some (Some x))
          by (apply Hold2; [lia | exact Hj]).
        apply (Hkeep j x Hj); [lia|]. now apply (Hall1 j).
      * destruct (IHrun _ _ _ H tr0 evs Ht) as [evs' [Ht' Hkeep]].
        exists evs'. split; [exact Ht'|].
        intros j x Hj Hlt Hsync. apply (Hkeep j x Hj); [|exact Hsync].
        simpl. pose proof (JSSetMore.length_add l (listeners st)). lia.
      * destruct (IHrun _ _ _ H tr0 evs Ht) as [evs' [Ht' Hkeep]].
        exists evs'. split; [exact Ht'|].
        intros j x Hj Hlt Hsync. apply (Hkeep j x Hj); [|exact Hsync].
        simpl. now rewrite JSSetMore.length_delete.
Qed.

Lemma setState_sync fuel u st st' :
  setState fuel u st = Fin st' ->
  exists evs,
    trace st' = trace st ++ evs /\
    forall l, JSSet.has l (listeners st') = true ->
              last_call l evs = Some (storeState st').
Proof.
  intros H. destruct (sync_fuel fuel) as [Hset _].
  destruct (Hset _ _ _ H (trace st) []) as [evs [Ht Hall]].
  { now rewrite app_nil_r. }
  exists evs. split; [exact Ht|]. intros l Hl.
  apply JSSetFacts.has_elements, JSSetFacts.slot_elements in Hl.
  apply In_nth_error in Hl as [j Hj]. now apply (Hall j).
Qed.

Lemma setStates_sync fuel us st st' :
  us <> [] ->
  setStates fuel us st = Fin st' ->
  exists evs,
    trace st' = trace st ++ evs /\
    forall l, JSSet.has l (listeners st') = true ->
              last_call l evs = Some (storeState st').
Proof.
  revert st. induction us as [|u r IH]; intros st Hne H; [congruence|].
  simpl in H. apply andThen_Fin in H as [st1 [H1 H2]].
  destruct r as [|u' r'].
  - simpl in H2. injection H2 as <-. exact (setState_sync _ _ _ H1).
  - destruct (setState_sync _ _ _ H1) as [evs1 [Ht1 _]].
    destruct (IH st1) as [evs2 [Ht2 Hall]]; [discriminate | exact H2|].
    exists (evs1 ++ evs2). split.
    + rewrite Ht2, Ht1, app_assoc. reflexivity.
    + intros l Hl. apply last_call_app_some. now apply Hall.
Qed.

(** X1.  When [setState] returns, whatever the listeners did during the
    call (writes, subscriptions, cancellations), every listener that is
    registered at that moment has been called during the call, and the
    last value it was given is the state [getState()] returns. *)
Theorem setState_leaves_nobody_behind
        (fuel : nat) (u : updater State) (st st' : Store) :
  setState fuel u st = Fin st' ->
  exists evs,
    trace st' = trace st ++ evs /\
    forall l, JSSet.has l (listeners st') = true ->
              last_call l evs = Some (getState st').
Proof. apply setState_sync. Qed.

End MoreRuns.

(** ** The binding of a component *)

Section Cells.

Variable State : Type.
Variable A : Type.
Variable body : lid -> State -> prog State.
Variable as_updater : A -> option (A -> A).

Lemma cell_after_last (selector : State -> A) (l : lid) (cell : A)
      (evs : list (event State)) (s : State) :
  last_call l evs = Some s ->
  as_updater (selector s) = None ->
  cell_after as_updater selector l cell evs = selector s.
Proof.
  unfold last_call, cell_after.
  destruct (calls_of l evs) as [|x r] using rev_ind; [discriminate|].
  rewrite map_app, fold_left_app. simpl. rewrite last_last.
  intros [= ->] Hs. unfold setStateLocal. now rewrite Hs.
Qed.

Lemma cell_in_sync (selector : State -> A) (l : lid) (cell : A)
      (st1 st2 : Store State) (fuel : nat) (us : list (updater State)) :
  us <> [] ->
  setStates body fuel us st1 = Fin st2 ->
  JSSet.has l (listeners st2) = true ->
  as_updater (selector (storeState st2)) = None ->
  exists evs,
    trace st2 = trace st1 ++ evs /\
    cell_after as_updater selector l cell evs = selector (storeState st2).
Proof.
  intros Hne H Hl Hs.
  destruct (@setStates_sync State body fuel us st1 st2)
    as [evs [Ht Hall]]; [exact Hne | exact H |].
  exists evs. split; [exact Ht|].
  apply cell_after_last; [now apply Hall | exact Hs].
Qed.

Lemma cell_mounted_plain (selector : State -> A) (st : Store State) :
  as_updater (selector (storeState st)) = None ->
  cell_mounted as_updater selector st = selector (storeState st).
Proof. unfold cell_mounted, setStateLocal. now intros ->. Qed.

Lemma cell_follows (selector : State -> A) (l : lid)
      (st0 st1 st2 : Store State) (fuel : nat) (us : list (updater State)) :
  storeState st1 = storeState st0 ->
  setStates body fuel us st1 = Fin st2 ->
  JSSet.has l (listeners st2) = true ->
  as_updater (selector (storeState st2)) = None ->
  exists evs,
    trace st2 = trace st1 ++ evs /\
    cell_after as_updater selector l
               (cell_mounted as_updater selector st0) evs
    = selector (storeState st2).
Proof.
  intros Hst H Hl Hs. destruct us as [|u r].
  - simpl in H. injection H as <-. exists []. split.
    + now rewrite app_nil_r.
    + simpl. rewrite Hst in Hs. rewrite Hst.
      now apply cell_mounted_plain.
  - apply cell_in_sync with (fuel := fuel) (us := u :: r);
      [discriminate | assumption..].
Qed.

End Cells.

Section Bindings.

Variable State : Type.
Variable A B : Type.
Variable body : lid -> State -> prog State.
Variable as_updaterA : A -> option (A -> A).
Variable as_updaterB : B -> option (B -> B).

(** X2.  A component that has mounted [useStore(selector)] and whose
    listener is still subscribed renders [selector(getState())] after any
    sequence of writes that has returned, whatever the other listeners of
    the store do, provided this selection is not a function (a function
    handed to React's setter is applied to the previous state of the
    cell instead of being stored). *)
Theorem useStore_follows_store
        (selector : State -> A) (l : lid) (st0 st2 : Store State)
        (fuel : nat) (us : list (updater State)) :
  let mounted := useStore_effect selector l st0 in
  let st1 := fst (fst mounted) in
  let cell := cell_mounted as_updaterA selector st0 in
  setStates body fuel us st1 = Fin st2 ->
  JSSet.has l (listeners st2) = true ->
  as_updaterA (selector (getState st2)) = None ->
  exists evs,
    trace st2 = trace st0 ++ evs /\
    useStore selector
             (Some (cell_after as_updaterA selector l cell evs)) st2 =
      selector (getState st2).
Proof.
  intros mounted st1 cell H Hl Hs.
  destruct (@cell_follows State A body as_updaterA selector l
                          st0 st1 st2 fuel us eq_refl H Hl Hs)
    as [evs [Ht Hcell]].
  exists evs. split; [exact Ht|]. simpl. exact Hcell.
Qed.

(** X3.  Two components bound to one store with different selectors each
    render their own selection of the current state after any sequence of
    writes that has returned, provided the two selections are not
    functions. *)
Theorem bindings_are_independent
        (selA : State -> A) (selB : State -> B) (lA lB : lid)
        (st0 st3 : Store State) (fuel : nat) (us : list (updater State)) :
  let mountedA := useStore_effect selA lA st0 in
  let mountedB := useStore_effect selB lB (fst (fst mountedA)) in
  setStates body fuel us (fst (fst mountedB)) = Fin st3 ->
  JSSet.has lA (listeners st3) = true ->
  JSSet.has lB (listeners st3) = true ->
  as_updaterA (selA (getState st3)) = None ->
  as_updaterB (selB (getState st3)) = None ->
  exists evs,
    trace st3 = trace st0 ++ evs /\
    useStore selA
             (Some (cell_after as_updaterA selA lA
                               (cell_mounted as_updaterA selA st0) evs))
             st3
      = selA (getState st3) /\
    useStore selB
             (Some (cell_after as_updaterB selB lB
                               (cell_mounted as_updaterB selB
                                             (fst (fst mountedA))) evs))
             st3
      = selB (getState st3).
Proof.
  intros mountedA mountedB H HA HB HsA HsB.
  destruct (@cell_follows State A body as_updaterA selA lA
                          st0 (fst (fst mountedB)) st3 fuel us
                          eq_refl H HA HsA)
    as [evs [Ht HcA]].
  destruct (@cell_follows State B body as_updaterB selB lB
                          (fst (fst mountedA)) (fst (fst mountedB)) st3
                          fuel us eq_refl H HB HsB)
    as [evs' [Ht' HcB]].
  assert (evs' = evs)
    by (eapply app_inv_head; rewrite <- Ht, <- Ht'; reflexivity).
  subst evs'. exists evs. split; [exact Ht|]. split; simpl; assumption.
Qed.

End Bindings.

(** ** Passes over listeners that cancel themselves *)

Module JSSetSlots.
Import JSSet.

Lemma firstn_snoc (X : Type) (xs : list X) (i : nat) (x : X) :
  nth_error xs i = Some x -> firstn (S i) xs = firstn i xs ++ [x].
Proof.
  revert i. induction xs as [|y r IH]; intros [|i] H; try discriminate.
  - injection H as ->. reflexivity.
  - change (y :: firstn (S i) r = y :: (firstn i r ++ [x])).
    f_equal. now apply IH.
Qed.

Lemma delete_at (l : lid) (s : t) (i : nat) :
  wf s -> nth_error s i = Some (Some l) ->
  delete l s = firstn i s ++ None :: skipn (S i) s.
Proof.
  unfold wf. rewrite JSSetFacts.distinct_NoDup.
  revert i. induction s as [|e r IH]; intros [|i]; simpl; try discriminate.
  - intros _ [= ->]. simpl. now rewrite Nat.eqb_refl.
  - intros Hnd Hi. destruct e as [x|]; simpl.
    + inversion Hnd as [|? ? Hx Hr]; subst.
      destruct (Nat.eqb x l) eqn:E.
      * apply Nat.eqb_eq in E. subst x. exfalso. apply Hx.
        eapply JSSetFacts.nth_slot; eassumption.
      * now rewrite (IH i Hr Hi).
    + now rewrite (IH i Hnd Hi).
Qed.

Lemma skipn_replaced (X : Type) (xs : list X) (i : nat) (y : X) :
  i < List.length xs ->
  skipn (S i) (firstn i xs ++ y :: skipn (S i) xs) = skipn (S i) xs.
Proof.
  intros Hi. rewrite skipn_app, length_firstn, Nat.min_l by lia.
  rewrite skipn_all2 by (rewrite length_firstn; lia).
  replace (S i - i) with 1 by lia. reflexivity.
Qed.

Lemma firstn_replaced (X : Type) (xs : list X) (i : nat) (y : X) :
  i < List.length xs ->
  firstn (S i) (firstn i xs ++ y :: skipn (S i) xs) = firstn i xs ++ [y].
Proof.
  intros Hi. rewrite firstn_app, length_firstn, Nat.min_l by lia.
  rewrite firstn_all2 by (rewrite length_firstn; lia).
  replace (S i - i) with 1 by lia. reflexivity.
Qed.

End JSSetSlots.

Section Passes.

Variable State : Type.
Variable body : lid -> State -> prog State.

Local Abbreviation Store := (Store State).
Local Abbreviation setState := (setState body).
Local Abbreviation forEach := (forEach body).
Local Abbreviation run := (run body).
Local Abbreviation setStates := (setStates body).

Lemma leaves_body (s : State) (l : lid) :
  leaves body s l = true -> body l s = Unsubscribe l Done.
Proof.
  unfold leaves, one_shot.
  destruct (body l s) as [|k|u k|l' k|l' k]; try discriminate.
  destruct k; try discriminate.
  intros E. apply Nat.eqb_eq in E. now subst.
Qed.

Lemma elements_clear (s : State) (ls : JSSet.t) :
  JSSet.elements (map (clear body s) ls) =
  filter (fun l => negb (leaves body s l)) (JSSet.elements ls).
Proof.
  induction ls as [|[l|] r IH]; simpl; [reflexivity| |exact IH].
  destruct (leaves body s l); simpl; now rewrite IH.
Qed.

Lemma forEach_one_shot (n p i : nat) (st : Store) :
  JSSet.wf (listeners st) ->
  (forall l, In l (JSSet.elements (skipn i (listeners st))) ->
             body l (storeState st) = Done \/
             leaves body (storeState st) l = true) ->
  List.length (listeners st) - i + 2 <= n ->
  forEach n p i st =
  Fin (mkStore (storeState st)
               (firstn i (listeners st) ++
                map (clear body (storeState st)) (skipn i (listeners st)))
               (writes st)
               (trace st ++ notifications p (storeState st)
                     (JSSet.elements (skipn i (listeners st))))).
Proof.
  revert i st. induction n as [|n IH]; intros i st Hwf Hb Hn; [lia|].
  simpl. destruct (nth_error (listeners st) i) as [e|] eqn:E.
  - assert (Hi : i < List.length (listeners st))
      by (apply nth_error_Some; congruence).
    rewrite (skipn_nth _ _ E) in Hb |- *.
    destruct e as [l|].
    + destruct (Hb l (or_introl eq_refl)) as [Hd|Hl].
      * rewrite Hd. destruct n as [|n']; [lia|].
        change (run (S n') Done (called p l st)) with (Fin (called p l st)).
        cbn [andThen]. rewrite IH.
        -- unfold called. cbn [storeState listeners writes trace].
           rewrite (JSSetSlots.firstn_snoc _ _ E), <- !app_assoc.
           cbn [map clear app JSSet.elements notifications].
           unfold leaves at 1. rewrite Hd. reflexivity.
        -- exact Hwf.
        -- intros x Hx. apply Hb. now right.
        -- simpl. lia.
      * rewrite (leaves_body _ _ Hl).
        destruct n as [|[|n'']]; [lia|lia|].
        change (run (S (S n'')) (Unsubscribe l Done) (called p l st))
          with (Fin (unsubscribe l (called p l st))).
        cbn [andThen]. rewrite IH.
        -- unfold unsubscribe, called. cbn [storeState listeners writes trace].
           rewrite (JSSetSlots.delete_at _ Hwf E).
           rewrite JSSetSlots.skipn_replaced, JSSetSlots.firstn_replaced
             by exact Hi.
           rewrite <- !app_assoc.
           cbn [map clear app JSSet.elements notifications].
           rewrite Hl. reflexivity.
        -- simpl. now apply JSSetFacts.wf_delete.
        -- unfold unsubscribe, called. cbn [storeState listeners writes trace].
           rewrite (JSSetSlots.delete_at _ Hwf E).
           rewrite JSSetSlots.skipn_replaced by exact Hi.
           intros x Hx. apply Hb. now right.
        -- simpl. rewrite JSSetMore.length_delete. lia.
    + rewrite IH.
      * rewrite (JSSetSlots.firstn_snoc _ _ E), <- app_assoc. reflexivity.
      * exact Hwf.
      * exact Hb.
      * lia.
  - apply nth_error_None in E. rewrite skipn_all2 by exact E.
    rewrite firstn_all2 by exact E.
    simpl. rewrite !app_nil_r. now destruct st.
Qed.

(** X4.  Listeners that unsubscribe themselves when they are called do
    not disturb the notification: when every registered listener either
    leaves the store alone or only cancels itself, [setState] returns,
    every listener registered at the call has been called exactly once
    with the new state, in the order of registration, and afterwards the
    listeners that cancelled themselves are gone and the others are
    registered as before. *)
Theorem self_cancelling_listeners_are_served
        (u : updater State) (st : Store) (fuel : nat) :
  let next := next_state u (getState st) in
  JSSet.wf (listeners st) ->
  (forall l, JSSet.has l (listeners st) = true ->
             body l next = Done \/ leaves body next l = true) ->
  List.length (listeners st) + 3 <= fuel ->
  exists st',
    setState fuel u st = Fin st' /\
    getState st' = next /\
    trace st' =
      trace st ++
      Commit next ::
      notifications (writes st) next (JSSet.elements (listeners st)) /\
    JSSet.elements (listeners st') =
      filter (fun l => negb (leaves body next l))
             (JSSet.elements (listeners st)).
Proof.
  intros next Hwf Hb Hfuel. destruct fuel as [|n]; [lia|].
  eexists. split; [|split; [|split]].
  - simpl. rewrite forEach_one_shot.
    + reflexivity.
    + exact Hwf.
    + simpl. intros l Hl. apply JSSetFacts.has_elements in Hl.
      destruct u; apply (Hb l Hl).
    + simpl. lia.
  - simpl. now destruct u.
  - simpl. rewrite <- app_assoc. now destruct u.
  - simpl. rewrite elements_clear. now destruct u.
Qed.

(** *** A listener that always writes *)

Lemma hd_elements_skip (ls : JSSet.t) (i : nat) :
  nth_error ls i = Some None ->
  JSSet.elements (skipn i ls) = JSSet.elements (skipn (S i) ls).
Proof. intros E. now rewrite (skipn_nth _ _ E). Qed.

Lemma writing_back_cut (l : lid) :
  (forall s, exists u k, body l s = SetState u k) ->
  forall n (st : Store),
    first_listener st = Some l ->
    (forall u st', setState n u st <> Fin st') /\
    (forall p i st',
        hd_error (JSSet.elements (skipn i (listeners st))) = Some l ->
        forEach n p i st <> Fin st') /\
    (forall u k st', run n (SetState u k) st <> Fin st').
Proof.
  intros Hl n. induction n as [|n IH]; intros st Hfirst.
  - repeat split; intros; discriminate.
  - split; [|split].
    + intros u st'. simpl.
      apply (IH (assign (next_state u (storeState st)) st) Hfirst).
      exact Hfirst.
    + intros p i st' Hhd. simpl.
      destruct (nth_error (listeners st) i) as [[x|]|] eqn:E.
      * rewrite (skipn_nth _ _ E) in Hhd. simpl in Hhd.
        injection Hhd as ->. intros H.
        apply andThen_Fin in H as [st1 [H1 _]].
        destruct (Hl (storeState st)) as [u [k Hb]]. rewrite Hb in H1.
        now apply (IH (called p l st) Hfirst) in H1.
      * apply (IH st Hfirst). now rewrite <- (hd_elements_skip _ _ E).
      * apply nth_error_None in E. rewrite skipn_all2 in Hhd by exact E.
        discriminate.
    + intros u k st' H. simpl in H.
      apply andThen_Fin in H as [st1 [H1 _]].
      now apply (IH st Hfirst) in H1.
Qed.

(** X5.  A listener that answers every call by a [setState] of its own
    keeps the store from ever finishing a write: when such a listener is
    the first one registered, no [setState] on the store returns, however
    long it runs. *)
Theorem writing_back_never_returns
        (l : lid) (st : Store) (fuel : nat) (u : updater State)
        (st' : Store) :
  first_listener st = Some l ->
  (forall s, exists u' k, body l s = SetState u' k) ->
  setState fuel u st <> Fin st'.
Proof.
  intros Hfirst Hl. now apply (@writing_back_cut l Hl fuel st Hfirst).
Qed.

(** *** Subscribing and unsubscribing *)

Lemma delete_appended (l : lid) (s : JSSet.t) :
  JSSet.has l s = false ->
  JSSet.delete l (s ++ [Some l]) = s ++ [None].
Proof.
  unfold JSSet.has. induction s as [|e r IH]; simpl.
  - now rewrite Nat.eqb_refl.
  - intros H. apply orb_false_iff in H as [He Hr]. rewrite He.
    now rewrite (IH Hr).
Qed.

(** X6.  Subscribing a listener that is not registered and calling the
    function [subscribe] returned brings the store back: the registered
    listeners and the state are what they were, and a write that follows
    notifies exactly the listeners of before (they leaving the store
    alone). *)
Theorem subscribe_then_unsubscribe_restores
        (l : lid) (st : Store) (fuel : nat) (u : updater State) :
  let back := snd (subscribe l st) (fst (subscribe l st)) in
  JSSet.has l (listeners st) = false ->
  quiet_on body st ->
  List.length (listeners st) + 3 <= fuel ->
  JSSet.elements (listeners back) = JSSet.elements (listeners st) /\
  getState back = getState st /\
  setState fuel u back =
    Fin (mkStore (next_state u (getState st))
                 (listeners st ++ [None])
                 (S (writes st))
                 (trace st ++
                  Commit (next_state u (getState st)) ::
                  notifications (writes st) (next_state u (getState st))
                                (JSSet.elements (listeners st)))).
Proof.
  intros back Hl Hq Hfuel.
  assert (Hls : listeners back = listeners st ++ [None]).
  { unfold back. simpl. unfold JSSet.add. rewrite Hl.
    now apply delete_appended. }
  assert (Hel : JSSet.elements (listeners back)
                = JSSet.elements (listeners st)).
  { rewrite Hls, JSSetFacts.elements_app. simpl. apply app_nil_r. }
  split; [exact Hel|]. split; [reflexivity|].
  rewrite setState_quiet.
  - unfold notified. rewrite Hel, Hls. reflexivity.
  - intros x Hx. rewrite Hel in Hx. now apply Hq.
  - rewrite Hls, length_app. simpl. lia.
Qed.

(** X7.  Subscriptions are not counted: after a listener was subscribed
    twice, one call of the function the second [subscribe] returned
    removes it, and no later write calls it (nobody subscribing it
    again). *)
Theorem one_unsubscribe_cancels_repeated_subscribe
        (l : lid) (st : Store) (fuel : nat) (us : list (updater State)) :
  let once := fst (subscribe l st) in
  let twice := fst (subscribe l once) in
  let after := snd (subscribe l once) twice in
  JSSet.wf (listeners st) ->
  (forall l' s, never_subscribes l (body l' s)) ->
  JSSet.has l (listeners twice) = true /\
  JSSet.has l (listeners after) = false /\
  exists evs,
    trace (store_of (setStates fuel us after)) = trace st ++ evs /\
    calls_of l evs = [].
Proof.
  intros once twice after Hwf Hbody.
  assert (Hafter : JSSet.has l (listeners after) = false).
  { unfold after, twice, once. simpl. apply JSSetFacts.has_delete.
    now do 2 apply JSSetFacts.wf_add. }
  split; [|split; [exact Hafter|]].
  - unfold twice, once. simpl. apply JSSetFacts.has_add.
  - destruct (@silent_setStates State body l fuel us after Hbody Hafter)
      as [_ [evs [Ht Hc]]].
    exists evs. split; [exact Ht | exact Hc].
Qed.

(** X8.  Whatever is done with a store made by [createStore] (calls of
    [subscribe], of unsubscribe functions and of [setState], listeners
    calling back into the store, runs stopped anywhere), no listener is
    ever registered twice. *)
Theorem listeners_registered_once (st : Store) :
  reachable body st -> NoDup (JSSet.elements (listeners st)).
Proof.
  intros H. apply JSSetFacts.distinct_NoDup. now apply reachable_wf in H.
Qed.

End Passes.

(** ** The effect of a binding, run again *)

Section Rebinding.

Variable State : Type.
Variable A : Type.

Lemma registered_add (l : lid) (s : JSSet.t) :
  JSSet.has l s = false ->
  List.length (JSSet.elements (JSSet.add l s)) =
  S (List.length (JSSet.elements s)).
Proof.
  intros H. unfold JSSet.add. rewrite H, JSSetFacts.elements_app, length_app.
  simpl. lia.
Qed.

Lemma registered_delete (l : lid) (s : JSSet.t) :
  JSSet.has l s = true ->
  S (List.length (JSSet.elements (JSSet.delete l s))) =
  List.length (JSSet.elements s).
Proof.
  unfold JSSet.has. induction s as [|[x|] r IH]; simpl; try discriminate.
  - destruct (Nat.eqb x l); simpl; [reflexivity|].
    intros H. now rewrite (IH H).
  - exact IH.
Qed.

(** X9.  When the effect of [useStore] runs again with a new listener
    (the render brought a new selector function), the old listener is
    unsubscribed and the new one subscribed: the component keeps exactly
    one listener in the store, the number of registered listeners does not
    grow, and the value handed to the component is the new selection of
    the current state. *)
Theorem useStore_effect_again_keeps_one_listener
        (selector : State -> A) (old new : lid) (st : Store State) :
  let again :=
    useStore_effect_again selector (snd (subscribe old st)) new st in
  let st' := fst (fst again) in
  JSSet.wf (listeners st) ->
  JSSet.has old (listeners st) = true ->
  JSSet.has new (listeners st) = false ->
  JSSet.has old (listeners st') = false /\
  JSSet.has new (listeners st') = true /\
  List.length (JSSet.elements (listeners st')) =
    List.length (JSSet.elements (listeners st)) /\
  JSSet.wf (listeners st') /\
  snd (fst again) = selector (getState st).
Proof.
  intros again st' Hwf Hold Hnew.
  assert (Hne : old <> new) by (intros ->; congruence).
  assert (Hdel : JSSet.has new (JSSet.delete old (listeners st)) = false)
    by now apply JSSetFacts.has_delete_other.
  repeat split.
  - simpl. apply JSSetFacts.has_add_other; [exact Hne|].
    now apply JSSetFacts.has_delete.
  - simpl. apply JSSetFacts.has_add.
  - simpl. rewrite registered_add by exact Hdel.
    now apply registered_delete.
  - simpl. now apply JSSetFacts.wf_add, JSSetFacts.wf_delete.
Qed.

End Rebinding.

(** ** The counter of the buttons *)

Section Page.

Import App.

Variable body : lid -> AppState -> prog AppState.

Lemma plus_exact (a b : Z) :
  (- 2 ^ 53 <= a + b <= 2 ^ 53)%Z -> plus a b = (a + b)%Z.
Proof.
  intros H. unfold plus, to_number.
  destruct (Z.leb_spec (Z.abs (a + b)) (2 ^ 53)) as [_|Hgt]; [reflexivity|].
  change (2 ^ 53)%Z with 9007199254740992%Z in *. lia.
Qed.

Lemma increments_run (n : nat) :
  forall (st : Store AppState) (fuel : nat),
    quiet_on body st ->
    List.length (listeners st) + 2 <= fuel ->
    (- 2 ^ 53 <= count (getState st))%Z ->
    (count (getState st) + Z.of_nat n <= 2 ^ 53)%Z ->
    exists st',
      setStates body fuel (repeat increment n) st = Fin st' /\
      listeners st' = listeners st /\
      getState st' = {| count := count (getState st) + Z.of_nat n |} /\
      exists evs,
        trace st' = trace st ++ evs /\
        forall l, In l (JSSet.elements (listeners st)) ->
          JSSet.wf (listeners st) ->
          calls_of l evs =
          map (fun k => {| count := count (getState st) + Z.of_nat k |})
              (seq 1 n).
Proof.
  induction n as [|n IH]; intros st fuel Hq Hfuel Hlo Hhi.
  - exists st. simpl. repeat split.
    + destruct st as [[c] ls w tr]. simpl. now rewrite Z.add_0_r.
    + exists []. split; [now rewrite app_nil_r | reflexivity].
  - cbn [repeat setStates]. rewrite setState_quiet by assumption.
    cbn [andThen]. set (st1 := notified _ _ st).
    rewrite Nat2Z.inj_succ in Hhi.
    assert (H1 : getState st1 = {| count := count (getState st) + 1 |}).
    { unfold st1, notified, getState.
      cbn [storeState next_state increment count]. f_equal.
      apply plus_exact. unfold getState in Hlo, Hhi.
      change (2 ^ 53)%Z with 9007199254740992%Z in *. lia. }
    destruct (IH st1 fuel Hq Hfuel)
      as [st' [Hrun [Hls [Hs [evs [Ht Hcalls]]]]]].
    { rewrite H1. cbn [count].
      change (2 ^ 53)%Z with 9007199254740992%Z in *. lia. }
    { rewrite H1. cbn [count]. lia. }
    exists st'. split; [exact Hrun|]. split; [exact Hls|]. split.
    + rewrite Hs, H1. cbn [count]. f_equal. lia.
    + eexists. split.
      * rewrite Ht. unfold st1, notified. cbn [trace].
        rewrite <- app_assoc. reflexivity.
      * intros l Hl Hwf. rewrite calls_of_app.
        change (calls_of l (Commit ?s :: ?r)) with (calls_of l r).
        rewrite calls_of_notifications_in by assumption.
        rewrite (Hcalls l Hl Hwf). cbn [seq map app]. f_equal.
        -- change (next_state increment (storeState st))
             with (storeState st1).
           change (storeState st1) with (getState st1). rewrite H1.
           reflexivity.
        -- rewrite <- (seq_shift n 1), map_map. apply map_ext.
           intros k. rewrite H1. cbn [count]. f_equal.
           rewrite Nat2Z.inj_succ. lia.
Qed.

(** X10.  Clicking Increment [n] times on a store whose listeners leave
    it alone, the count being a whole number that stays within [2^53] in
    magnitude, adds [n] to the count, and every registered listener is
    called [n] times, with the counts that follow the old one, in order. *)
Theorem increments_add_up
        (n : nat) (st : Store AppState) (fuel : nat) (l : lid) :
  JSSet.wf (listeners st) ->
  quiet_on body st ->
  JSSet.has l (listeners st) = true ->
  List.length (listeners st) + 2 <= fuel ->
  (- 2 ^ 53 <= count (getState st))%Z ->
  (count (getState st) + Z.of_nat n <= 2 ^ 53)%Z ->
  exists st' evs,
    setStates body fuel (repeat increment n) st = Fin st' /\
    count (getState st') = (count (getState st) + Z.of_nat n)%Z /\
    trace st' = trace st ++ evs /\
    calls_of l evs =
      map (fun k => {| count := count (getState st) + Z.of_nat k |})
          (seq 1 n).
Proof.
  intros Hwf Hq Hl Hfuel Hlo Hhi.
  destruct (@increments_run n st fuel Hq Hfuel Hlo Hhi)
    as [st' [Hrun [_ [Hs [evs [Ht Hcalls]]]]]].
  exists st', evs. split; [exact Hrun|]. split; [now rewrite Hs|].
  split; [exact Ht|]. apply Hcalls; [|exact Hwf].
  now apply JSSetFacts.has_elements.
Qed.

(** X11.  At [2^53] the counter stops: a click on Increment commits a
    state with the same count (the sum [2^53 + 1] is not a number of
    JavaScript and rounds back), and the listeners, which leave the store
    alone, are all notified of it once more. *)
Theorem increment_stops_at_the_largest_count
        (st : Store AppState) (fuel : nat) :
  count (getState st) = (2 ^ 53)%Z ->
  quiet_on body st ->
  List.length (listeners st) + 2 <= fuel ->
  exists st',
    setState body fuel increment st = Fin st' /\
    getState st' = getState st /\
    trace st' =
      trace st ++
      Commit (getState st) ::
      notifications (writes st) (getState st)
                    (JSSet.elements (listeners st)).
Proof.
  intros Hc Hq Hfuel.
  assert (Hn : next_state increment (storeState st) = storeState st).
  { unfold getState in Hc. destruct (storeState st) as [c].
    simpl in Hc. subst c. reflexivity. }
  eexists. split; [apply setState_quiet; assumption|].
  unfold notified, getState. cbn [storeState trace]. rewrite Hn. auto.
Qed.

(** X12.  Whatever the sequence of clicks on Increment and Reset, on a
    store whose listeners leave it alone and with counts that stay within
    [2^53], the writes return and the count is what the clicks make of
    the old one: one more for each Increment, 0 again at each Reset. *)
Theorem clicks_count
        (clicks : list button) (st : Store AppState) (fuel : nat) :
  quiet_on body st ->
  List.length (listeners st) + 2 <= fuel ->
  (- 2 ^ 53 <= count (getState st))%Z ->
  (Z.max (count (getState st)) 0 + Z.of_nat (List.length clicks)
   <= 2 ^ 53)%Z ->
  exists st',
    setStates body fuel (map onClick clicks) st = Fin st' /\
    listeners st' = listeners st /\
    count (getState st') = counted (count (getState st)) clicks.
Proof.
  revert st. induction clicks as [|b r IH]; intros st Hq Hfuel Hlo Hhi.
  - exists st. simpl. auto.
  - cbn [map setStates]. rewrite setState_quiet by assumption.
    cbn [andThen]. set (st1 := notified _ _ st).
    cbn [List.length] in Hhi. rewrite Nat2Z.inj_succ in Hhi.
    assert (H1 : count (getState st1) =
                 match b with
                 | IncrementButton => (count (getState st) + 1)%Z
                 | ResetButton => 0%Z
                 end).
    { unfold st1, notified, getState. cbn [storeState].
      destruct b; cbn [onClick next_state increment reset count];
        [|reflexivity].
      apply plus_exact. unfold getState in Hlo, Hhi.
      change (2 ^ 53)%Z with 9007199254740992%Z in *. lia. }
    destruct (IH st1 Hq Hfuel) as [st' [Hrun [Hls Hs]]].
    { rewrite H1. change (2 ^ 53)%Z with 9007199254740992%Z in *.
      destruct b; lia. }
    { rewrite H1. change (2 ^ 53)%Z with 9007199254740992%Z in *.
      destruct b; lia. }
    exists st'. split; [exact Hrun|]. split; [exact Hls|].
    rewrite Hs, H1. destruct b; reflexivity.
Qed.

End Page.

(** ** More instances *)

Module MoreInstances.
Import Examples.

(** The run of [rewriter]: after the nested write both listeners hold 2. *)
Lemma setState_leaves_nobody_behind_rewriter :
  exists evs,
    [Commit 1; Call 0 0 1; Commit 2; Call 1 0 2; Call 1 1 2; Call 0 1 2]
    = trace two ++ evs /\
    forall l, JSSet.has l [Some 0; Some 1] = true ->
              last_call l evs = Some 2.
Proof.
  apply (@setState_leaves_nobody_behind
           nat rewriter 8 (UVal 1) two
           (mkStore 2 [Some 0; Some 1] 2
                    [Commit 1; Call 0 0 1; Commit 2; Call 1 0 2;
                     Call 1 1 2; Call 0 1 2])).
  reflexivity.
Defined.

(** A component showing the double of the state, after two writes. *)
Lemma useStore_follows_store_double :
  exists evs,
    [Commit 7; Call 0 0 7; Commit 8; Call 1 0 8] = [] ++ evs /\
    useStore (fun s => s * 2)
             (Some (cell_after (fun _ => None) (fun s => s * 2) 0 10 evs))
             (mkStore 8 [Some 0] 2
                      [Commit 7; Call 0 0 7; Commit 8; Call 1 0 8])
    = 16.
Proof.
  apply (@useStore_follows_store
           nat nat quiet (fun _ => None) (fun s => s * 2) 0 (createStore 5)
           (mkStore 8 [Some 0] 2
                    [Commit 7; Call 0 0 7; Commit 8; Call 1 0 8])
           3 [UVal 7; UFun S]).
  - reflexivity.
  - reflexivity.
  - reflexivity.
Defined.

(** One component shows the double, the other whether the state is even. *)
Lemma bindings_are_independent_two :
  exists evs,
    [Commit 8; Call 0 0 8; Call 0 1 8] = [] ++ evs /\
    useStore (fun s => s * 2)
             (Some (cell_after (fun _ => None) (fun s => s * 2) 0 10 evs))
             (mkStore 8 [Some 0; Some 1] 1
                      [Commit 8; Call 0 0 8; Call 0 1 8])
    = 16 /\
    useStore Nat.even
             (Some (cell_after (fun _ => None) Nat.even 1 false evs))
             (mkStore 8 [Some 0; Some 1] 1
                      [Commit 8; Call 0 0 8; Call 0 1 8])
    = true.
Proof.
  apply (@bindings_are_independent
           nat nat bool quiet (fun _ => None) (fun _ => None)
           (fun s => s * 2) Nat.even 0 1 (createStore 5)
           (mkStore 8 [Some 0; Some 1] 1
                    [Commit 8; Call 0 0 8; Call 0 1 8])
           4 [UVal 8]).
  - reflexivity.
  - reflexivity.
  - reflexivity.
  - reflexivity.
  - reflexivity.
Defined.

(** Listener 0 cancels itself during [setState(7)]; listener 1 is served
    all the same and stays. *)
Lemma self_cancelling_listeners_are_served_once :
  exists st',
    setState once 5 (UVal 7) two = Fin st' /\
    getState st' = 7 /\
    trace st' = [Commit 7; Call 0 0 7; Call 0 1 7] /\
    JSSet.elements (listeners st') = [1].
Proof.
  apply (@self_cancelling_listeners_are_served nat once (UVal 7) two 5).
  - reflexivity.
  - intros [|[|l]] Hl; try discriminate.
    + right. reflexivity.
    + left. reflexivity.
  - simpl. lia.
Defined.

(** With the echo first in line, [setState(5)] does not return. *)
Lemma writing_back_never_returns_echo :
  first_listener two = Some 0 /\
  setState echo 40 (UVal 5) two <> Fin two.
Proof.
  split; [reflexivity|].
  apply (@writing_back_never_returns nat echo 0 two 40 (UVal 5) two).
  - reflexivity.
  - intros s. exists (UVal (S s)), Done. reflexivity.
Defined.

(** A third listener comes and goes. *)
Lemma subscribe_then_unsubscribe_restores_two :
  JSSet.elements
    (listeners (snd (subscribe 2 two) (fst (subscribe 2 two)))) = [0; 1] /\
  getState (snd (subscribe 2 two) (fst (subscribe 2 two))) = 0 /\
  setState quiet 5 (UVal 9) (snd (subscribe 2 two) (fst (subscribe 2 two)))
  = Fin (mkStore 9 [Some 0; Some 1; None] 1
                 [Commit 9; Call 0 0 9; Call 0 1 9]).
Proof.
  apply (@subscribe_then_unsubscribe_restores nat quiet 2 two 5 (UVal 9)).
  - reflexivity.
  - intros l _ s. reflexivity.
  - simpl. lia.
Defined.

(** Listener 0 of [two] subscribed once more, then unsubscribed once. *)
Lemma one_unsubscribe_cancels_repeated_subscribe_two :
  JSSet.has 0 (listeners (fst (subscribe 0 (fst (subscribe 0 two))))) = true /\
  JSSet.has 0 (listeners (snd (subscribe 0 (fst (subscribe 0 two)))
                              (fst (subscribe 0 (fst (subscribe 0 two))))))
  = false /\
  exists evs,
    trace (store_of
             (setStates quiet 5 [UVal 3; UVal 4]
                        (snd (subscribe 0 (fst (subscribe 0 two)))
                             (fst (subscribe 0 (fst (subscribe 0 two)))))))
    = trace two ++ evs /\
    calls_of 0 evs = [].
Proof.
  apply (@one_unsubscribe_cancels_repeated_subscribe
           nat quiet 0 two 5 [UVal 3; UVal 4]).
  - reflexivity.
  - intros l' s. exact I.
Defined.

(** The store [two] is one a program can make. *)
Lemma listeners_registered_once_two :
  NoDup (JSSet.elements (listeners two)).
Proof.
  apply (@listeners_registered_once nat quiet two).
  unfold two. apply reach_subscribe, reach_subscribe, reach_create.
Defined.

(** The component of listener 0 renders again with a new selector and the
    new listener 2. *)
Lemma useStore_effect_again_keeps_one_listener_two :
  JSSet.has 0 (listeners
                 (fst (fst (useStore_effect_again
                              (fun s => s + 1) (snd (subscribe 0 two)) 2 two))))
  = false /\
  JSSet.has 2 (listeners
                 (fst (fst (useStore_effect_again
                              (fun s => s + 1) (snd (subscribe 0 two)) 2 two))))
  = true /\
  List.length
    (JSSet.elements
       (listeners
          (fst (fst (useStore_effect_again
                       (fun s => s + 1) (snd (subscribe 0 two)) 2 two)))))
  = 2 /\
  JSSet.wf (listeners
              (fst (fst (useStore_effect_again
                           (fun s => s + 1) (snd (subscribe 0 two)) 2 two))))
  /\
  snd (fst (useStore_effect_again
              (fun s => s + 1) (snd (subscribe 0 two)) 2 two)) = 1.
Proof.
  apply (@useStore_effect_again_keeps_one_listener
           nat nat (fun s => s + 1) 0 2 two); reflexivity.
Defined.

(** Two increments from the store of [store.js]. *)
Lemma increments_add_up_two :
  exists st' evs,
    setStates App.recorder 3 (repeat App.increment 2)
              (fst (subscribe 0 App.store)) = Fin st' /\
    App.count (getState st') = 2%Z /\
    trace st' = [] ++ evs /\
    calls_of 0 evs = [{| App.count := 1 |}; {| App.count := 2 |}].
Proof.
  apply (@increments_add_up App.recorder 2 (fst (subscribe 0 App.store)) 3 0).
  - reflexivity.
  - intros l _ s. reflexivity.
  - reflexivity.
  - simpl. lia.
  - simpl. lia.
  - simpl. lia.
Defined.

(** A store that has counted up to [2^53], with one listener. *)
Lemma increment_stops_at_the_largest_count_one :
  exists st',
    setState App.recorder 3 App.increment
             (fst (subscribe 0 (createStore
                                  {| App.count := 9007199254740992 |})))
    = Fin st' /\
    getState st' = {| App.count := 9007199254740992 |} /\
    trace st' =
      [Commit {| App.count := 9007199254740992 |};
       Call 0 0 {| App.count := 9007199254740992 |}].
Proof.
  apply (@increment_stops_at_the_largest_count
           App.recorder
           (fst (subscribe 0 (createStore
                                {| App.count := 9007199254740992 |}))) 3).
  - reflexivity.
  - intros l _ s. reflexivity.
  - simpl. lia.
Defined.

(** Increment, Increment, Reset, Increment on the store of [store.js]. *)
Lemma clicks_count_four :
  exists st',
    setStates App.recorder 3
              (map App.onClick
                   [App.IncrementButton; App.IncrementButton;
                    App.ResetButton; App.IncrementButton])
              (fst (subscribe 0 App.store)) = Fin st' /\
    listeners st' = [Some 0] /\
    App.count (getState st') = 1%Z.
Proof.
  apply (@clicks_count
           App.recorder
           [App.IncrementButton; App.IncrementButton;
            App.ResetButton; App.IncrementButton]
           (fst (subscribe 0 App.store)) 3).
  - intros l _ s. reflexivity.
  - simpl. lia.
  - simpl. lia.
  - simpl. lia.
Defined.

(** The updater [_ => 1] on the store of [rewriter]: listener 0 answers
    the state 1 with [setState(2)]; the call returns and [getState()] is
    2, not 1. *)
Lemma rewriter_overwrites_update :
  getState two = 0 /\
  exists st',
    setState rewriter 8 (UFun (fun _ => 1)) two = Fin st' /\
    getState st' = 2 /\
    getState st' <> (fun _ : nat => 1) (getState two).
Proof.
  split; [reflexivity|]. eexists. split; [reflexivity|].
  split; [reflexivity | discriminate].
Qed.

(** Writing 0 over the state 0 of the store of [canceller]: listener 1 is
    registered and the call returns without having called it. *)
Lemma canceller_drops_listener_on_unchanged_write :
  getState two = 0 /\
  JSSet.has 1 (listeners two) = true /\
  exists st',
    setState canceller 4 (UVal 0) two = Fin st' /\
    getState st' = 0 /\
    trace st' = [Commit 0; Call 0 0 0] /\
    calls_of 1 (trace st') = [].
Proof.
  split; [reflexivity|]. split; [reflexivity|].
  eexists. repeat split.
Qed.

(** Listener 1 subscribed again to the store of [canceller]: the next
    [setState] does not call it at all. *)
Lemma canceller_drops_resubscribed_listener :
  JSSet.has 1 (listeners two) = true /\
  fst (subscribe 1 two) = two /\
  exists st',
    setState canceller 4 (UVal 7) (fst (subscribe 1 two)) = Fin st' /\
    calls_of 1 (trace st') = [].
Proof.
  split; [reflexivity|]. split; [reflexivity|].
  eexists. split; reflexivity.
Qed.



End MoreInstances.
